(** * Resume screener: extraction and scoring core

    Shallow embedding of
    - [src/resume_screener_service/utils/scoring_logic.py]
      ([_extract_jd_requirements], [score_resume]) and
    - [src/resume_screener_service/utils/resume_parser.py]
      ([load_common_skills], [parse_resume_info]).

    Python strings are modelled as lists of Unicode code points ([text]).
    Case mapping ([str.lower], and the [re.IGNORECASE] comparisons) is
    modelled on ASCII letters; other code points are left unchanged.
    Numbers computed with Python floats are modelled as exact rationals
    ([Q]); the embedding model is a parameter giving the cosine similarity
    of the embeddings of two texts. *)

From Stdlib Require Import ZArith QArith Qround Lqa List String Ascii Bool Lia Sorted Permutation.
Import ListNotations.
Open Scope Z_scope.

(* ================================================================== *)
(** ** Text primitives *)

Definition text := list Z.

(** An ASCII Rocq string literal as a list of code points. *)
Definition str (s : string) : text :=
  map (fun a => Z.of_nat (nat_of_ascii a)) (list_ascii_of_string s).

Definition c_nl : Z := 10.
Definition c_colon : Z := 58.
Definition c_comma : Z := 44.
Definition c_semicolon : Z := 59.
Definition c_star : Z := 42.
Definition c_dash : Z := 45.
Definition c_bullet : Z := 8226.   (* U+2022 '•' *)

(** Python's whitespace ([Py_UNICODE_ISSPACE]): used both by [str.strip],
    [str.split()] and by the regex class [\s] on [str] patterns. *)
Definition is_space (c : Z) : bool :=
  ((9 <=? c) && (c <=? 13)) || ((28 <=? c) && (c <=? 32)) ||
  (c =? 133) || (c =? 160) || (c =? 5760) ||
  ((8192 <=? c) && (c <=? 8202)) || (c =? 8232) || (c =? 8233) ||
  (c =? 8239) || (c =? 8287) || (c =? 12288).

Definition is_upper (c : Z) : bool := (65 <=? c) && (c <=? 90).
Definition is_lower (c : Z) : bool := (97 <=? c) && (c <=? 122).
Definition is_alpha (c : Z) : bool := is_upper c || is_lower c.
Definition is_digit (c : Z) : bool := (48 <=? c) && (c <=? 57).

(** [str.lower], code point by code point. *)
Definition lower_cp (c : Z) : Z := if is_upper c then c + 32 else c.
Definition lower (t : text) : text := map lower_cp t.

(** Case-insensitive comparison of a text character with a pattern
    character ([re.IGNORECASE]). *)
Definition ci_eq (c p : Z) : bool := lower_cp c =? lower_cp p.

Fixpoint lstrip (t : text) : text :=
  match t with
  | c :: t' => if is_space c then lstrip t' else t
  | [] => []
  end.

(** [str.strip()] *)
Definition strip (t : text) : text := rev (lstrip (rev (lstrip t))).

(** [s.replace(ch, '')] *)
Definition remove_char (ch : Z) (t : text) : text :=
  filter (fun c => negb (c =? ch)) t.

(** [re.split(r'[,;\n]', s)]: every separator cuts, empty pieces kept. *)
Fixpoint split_on (sep : Z -> bool) (t : text) : list text :=
  match t with
  | [] => [[]]
  | c :: t' =>
      if sep c then [] :: split_on sep t'
      else match split_on sep t' with
           | x :: xs => (c :: x) :: xs
           | [] => [[c]]
           end
  end.

Definition is_list_sep (c : Z) : bool :=
  (c =? c_comma) || (c =? c_semicolon) || (c =? c_nl).

Fixpoint is_prefix (p t : text) : bool :=
  match p, t with
  | [], _ => true
  | a :: p', b :: t' => (a =? b) && is_prefix p' t'
  | _ :: _, [] => false
  end.

(** Python's [needle in haystack] on strings. *)
Fixpoint contains (needle hay : text) : bool :=
  is_prefix needle hay ||
  match hay with
  | [] => false
  | _ :: hay' => contains needle hay'
  end.

(** [sep.join(parts)] *)
Fixpoint join (sep : text) (parts : list text) : text :=
  match parts with
  | [] => []
  | [x] => x
  | x :: xs => x ++ sep ++ join sep xs
  end.

(* ================================================================== *)
(** ** Requirement miner: [_extract_jd_requirements]

    The three section regexes have the shape
    [(?:H1|H2|...):?\s*(.*?)(?:\n\n|\n[A-Z][a-zA-Z\s]+:|\Z)] with
    [re.IGNORECASE | re.DOTALL], searched over [jd_text.lower()].
    Everything after the header always matches ([\Z] at the end of the
    text is reachable by [.*?] under DOTALL), so the backtracking search
    never revisits a choice once the header has matched:
    - [re.search] takes the leftmost position where a header alternative
      matches, trying the alternatives in order;
    - [:?] and [\s*] are greedy: an optional colon, then all whitespace;
    - the lazy group ends at the first position where one of the
      terminators matches. *)

(** Pieces of a header alternative: a literal word (compared
    case-insensitively) or [\s+]. *)
Inductive hdr_piece :=
| HWord (w : text)
| HSpaces.

(** Length consumed by a header alternative at the start of [t]. [\s+] is
    greedy and every word starts with a letter, so the maximal whitespace
    run is the only one that can succeed. *)
Fixpoint prefix_ci (w t : text) : bool :=
  match w, t with
  | [], _ => true
  | a :: w', c :: t' => ci_eq c a && prefix_ci w' t'
  | _ :: _, [] => false
  end.

Fixpoint space_run (t : text) : nat :=
  match t with
  | c :: t' => if is_space c then S (space_run t') else O
  | [] => O
  end.

Fixpoint match_pieces (ps : list hdr_piece) (t : text) : option nat :=
  match ps with
  | [] => Some O
  | HWord w :: ps' =>
      if prefix_ci w t then
        option_map (Nat.add (List.length w)) (match_pieces ps' (skipn (List.length w) t))
      else None
  | HSpaces :: ps' =>
      let n := space_run t in
      if (0 <? n)%nat then
        option_map (Nat.add n) (match_pieces ps' (skipn n t))
      else None
  end.

(** First alternative (in pattern order) that matches at the start of [t]. *)
Fixpoint header_at (alts : list (list hdr_piece)) (t : text) : option nat :=
  match alts with
  | [] => None
  | a :: alts' =>
      match match_pieces a t with
      | Some n => Some n
      | None => header_at alts' t
      end
  end.

(** Leftmost header occurrence: returns the text before it, the header
    text and the text after it. *)
Fixpoint find_header (alts : list (list hdr_piece)) (t : text)
  : option (text * text * text) :=
  match header_at alts t with
  | Some n => Some ([], firstn n t, skipn n t)
  | None =>
      match t with
      | [] => None
      | c :: t' =>
          match find_header alts t' with
          | Some (pre, h, rest) => Some (c :: pre, h, rest)
          | None => None
          end
      end
  end.

(** [[A-Z]] under IGNORECASE, and [[a-zA-Z\s]]. *)
Definition heading_first (c : Z) : bool := is_alpha c.
Definition heading_body (c : Z) : bool := is_alpha c || is_space c.

Fixpoint run_of (p : Z -> bool) (t : text) : nat :=
  match t with
  | c :: t' => if p c then S (run_of p t') else O
  | [] => O
  end.

(** [\n[A-Z][a-zA-Z\s]+:] at the start of [t]. The class does not contain
    [:], so the greedy [+] succeeds only with the maximal run. *)
Definition heading_term (t : text) : bool :=
  match t with
  | nl :: c :: rest =>
      (nl =? c_nl) && heading_first c &&
      let n := run_of heading_body rest in
      (0 <? n)%nat &&
      match nth_error rest n with
      | Some k => k =? c_colon
      | None => false
      end
  | _ => false
  end.

(** [(?:\n\n|\n[A-Z][a-zA-Z\s]+:|\Z)] at the start of [t]. *)
Definition is_terminator (t : text) : bool :=
  match t with
  | [] => true
  | a :: b :: _ => ((a =? c_nl) && (b =? c_nl)) || heading_term t
  | _ => heading_term t
  end.

(** [(.*?)] followed by the terminator: the shortest prefix. *)
Fixpoint lazy_capture (t : text) : text :=
  if is_terminator t then []
  else match t with
       | [] => []
       | c :: t' => c :: lazy_capture t'
       end.

Definition skip_colon (t : text) : text :=
  match t with
  | c :: t' => if c =? c_colon then t' else t
  | [] => []
  end.

(** Group 1 of the section regex, if the search succeeds. *)
Definition section_group (alts : list (list hdr_piece)) (jd_lower : text)
  : option text :=
  match find_header alts jd_lower with
  | Some (_, _, rest) => Some (lazy_capture (lstrip (skip_colon rest)))
  | None => None
  end.

(** [.replace('*', '').replace('-', '').replace('•', '').strip()] *)
Definition clean_section (t : text) : text :=
  strip (remove_char c_bullet (remove_char c_dash (remove_char c_star t))).

(** [[s.strip() for s in re.split(r'[,;\n]', txt) if s.strip()]] *)
Definition fragments (t : text) : list text :=
  filter (fun s => negb (Nat.eqb (List.length s) 0))
         (map strip (split_on is_list_sep t)).

Definition mine_section (alts : list (list hdr_piece)) (jd_lower : text)
  : list text :=
  match section_group alts jd_lower with
  | Some g => fragments (clean_section g)
  | None => []
  end.

(** [(?:(?:required|key)\s+skills|skills|technical\s+qualifications)] *)
Definition skills_headers : list (list hdr_piece) :=
  [[HWord (str "required"); HSpaces; HWord (str "skills")];
   [HWord (str "key"); HSpaces; HWord (str "skills")];
   [HWord (str "skills")];
   [HWord (str "technical"); HSpaces; HWord (str "qualifications")]].

(** [(?:key\s+responsibilities|responsibilities|duties)] *)
Definition responsibilities_headers : list (list hdr_piece) :=
  [[HWord (str "key"); HSpaces; HWord (str "responsibilities")];
   [HWord (str "responsibilities")];
   [HWord (str "duties")]].

(** [(?:education|qualifications|academic\s+background)] *)
Definition education_headers : list (list hdr_piece) :=
  [[HWord (str "education")];
   [HWord (str "qualifications")];
   [HWord (str "academic"); HSpaces; HWord (str "background")]].

(** [int(s)] on a run of ASCII digits. The regex class [\d] is modelled on
    ASCII digits as well ([is_digit]). *)
Definition digits_value (ds : text) : Z :=
  fold_left (fun acc c => acc * 10 + (c - 48)) ds 0.

(** [(\d+)\s*(?:\+|plus)?\s*(?:years|yrs?)\s+(?:of\s+)?(?:experience|exp)]
    (IGNORECASE) anchored at the start of [t]; returns [int(group(1))].
    Every quantifier is followed by a character it cannot consume, so the
    greedy path is the only one that can succeed: a shorter [\d+] leaves a
    digit where whitespace, [+], [p] or [y] is needed; [yrs?] without its
    [s] leaves [s] where [\s+] is needed; and skipping [(?:\+|plus)?] or
    [(?:of\s+)?] leaves [+]/[p] or [o] where [y] or [e] is needed. For
    [(?:experience|exp)] the prefix [exp] decides the match. *)
Definition jd_years_at (t : text) : option Z :=
  let d := run_of is_digit t in
  if (d =? 0)%nat then None else
  let t1 := skipn d t in
  let t2 := skipn (space_run t1) t1 in
  let t3 := if prefix_ci (str "+") t2 then skipn 1 t2
            else if prefix_ci (str "plus") t2 then skipn 4 t2 else t2 in
  let t4 := skipn (space_run t3) t3 in
  let t5 := if prefix_ci (str "years") t4 then Some (skipn 5 t4)
            else if prefix_ci (str "yrs") t4 then Some (skipn 3 t4)
            else if prefix_ci (str "yr") t4 then Some (skipn 2 t4)
            else None in
  match t5 with
  | None => None
  | Some t5 =>
      let n := space_run t5 in
      if (n =? 0)%nat then None else
      let t6 := skipn n t5 in
      let t7 := if prefix_ci (str "of") t6 &&
                   negb (space_run (skipn 2 t6) =? 0)%nat
                then skipn (2 + space_run (skipn 2 t6)) t6 else t6 in
      if prefix_ci (str "exp") t7 then Some (digits_value (firstn d t))
      else None
  end.

(** [re.search]: leftmost start position. *)
Fixpoint search_years (t : text) : option Z :=
  match jd_years_at t with
  | Some y => Some y
  | None =>
      match t with
      | [] => None
      | _ :: t' => search_years t'
      end
  end.

(** The dictionary returned by [_extract_jd_requirements]. *)
Record JobRequirements := {
  req_skills : list text;
  req_responsibilities : list text;
  req_experience_years : Z;
  req_education : list text
}.

Definition _extract_jd_requirements (jd_text : text) : JobRequirements :=
  let jd_lower := lower jd_text in
  {| req_skills := mine_section skills_headers jd_lower;
     req_responsibilities := mine_section responsibilities_headers jd_lower;
     req_experience_years :=
       match search_years jd_lower with Some y => y | None => 0 end;
     req_education := mine_section education_headers jd_lower |}.

Definition nl_str : text := [c_nl].

(* ================================================================== *)
(** ** A backtracking regular-expression matcher

    Python's [re] module is a backtracking matcher: alternatives are tried
    left to right, greedy repetitions try one more iteration before
    stopping, lazy ones stop before trying one more. The matcher below
    follows that order in continuation-passing style; captures are
    threaded through the continuation so that a failed branch leaves no
    group set. Repetition bodies must consume input to iterate again (as
    in [sre]). The [fuel] bounds the nesting depth only; [re_fuel] is
    larger than any depth the patterns of this file reach. *)

Module Regex.

Inductive regex :=
| RClass (p : Z -> bool)
| REps
| RSeq (a b : regex)
| RAlt (a b : regex)
| RStar (greedy : bool) (a : regex)
| RGroup (n : nat) (a : regex)
| REndZ           (* \Z *)
| REndDollar      (* $ without MULTILINE *)
| RWordB.         (* \b *)

Definition caps := list (nat * (nat * nat)).

Definition is_word (c : Z) : bool := is_alpha c || is_digit c || (c =? 95).

Definition word_at (t : text) (i : nat) : bool :=
  match nth_error t i with Some c => is_word c | None => false end.

Fixpoint rmatch (t : text) (fuel : nat) (r : regex) (i : nat) (cs : caps)
    (k : nat -> caps -> option (nat * caps)) : option (nat * caps) :=
  match fuel with
  | O => None
  | S f =>
      match r with
      | RClass p =>
          match nth_error t i with
          | Some c => if p c then k (S i) cs else None
          | None => None
          end
      | REps => k i cs
      | RSeq a b => rmatch t f a i cs (fun j cs' => rmatch t f b j cs' k)
      | RAlt a b =>
          match rmatch t f a i cs k with
          | Some x => Some x
          | None => rmatch t f b i cs k
          end
      | RStar true a =>
          match rmatch t f a i cs
                  (fun j cs' => if (i <? j)%nat
                                then rmatch t f (RStar true a) j cs' k
                                else None) with
          | Some x => Some x
          | None => k i cs
          end
      | RStar false a =>
          match k i cs with
          | Some x => Some x
          | None =>
              rmatch t f a i cs
                (fun j cs' => if (i <? j)%nat
                              then rmatch t f (RStar false a) j cs' k
                              else None)
          end
      | RGroup n a => rmatch t f a i cs (fun j cs' => k j ((n, (i, j)) :: cs'))
      | REndZ => if (i =? List.length t)%nat then k i cs else None
      | REndDollar =>
          if (i =? List.length t)%nat ||
             ((S i =? List.length t)%nat &&
              match nth_error t i with Some c => c =? c_nl | None => false end)
          then k i cs else None
      | RWordB =>
          let before := match i with O => false | S i' => word_at t i' end in
          if xorb before (word_at t i) then k i cs else None
      end
  end.

Fixpoint re_size (r : regex) : nat :=
  match r with
  | RSeq a b | RAlt a b => S (re_size a + re_size b)
  | RStar _ a | RGroup _ a => S (re_size a)
  | _ => 1%nat
  end.

Definition re_fuel (r : regex) (t : text) : nat :=
  (4 * (re_size r + 1) * (List.length t + 2))%nat.

(** A successful match: start, end, captures. *)
Record match_result := { m_start : nat; m_end : nat; m_caps : caps }.

Fixpoint search_from (r : regex) (t : text) (i : nat) (n : nat)
  : option match_result :=
  match rmatch t (re_fuel r t) r i [] (fun j cs => Some (j, cs)) with
  | Some (j, cs) => Some {| m_start := i; m_end := j; m_caps := cs |}
  | None =>
      match n with
      | O => None
      | S n' => search_from r t (S i) n'
      end
  end.

(** [re.search(r, t)]; also the first element of [re.findall(r, t)]. *)
Definition search (r : regex) (t : text) : option match_result :=
  search_from r t 0 (List.length t).

Definition slice (t : text) (s e : nat) : text := firstn (e - s) (skipn s t).

(** [m.group(0)] *)
Definition group0 (t : text) (m : match_result) : text :=
  slice t (m_start m) (m_end m).

(** [m.group(n)], or [''] as [re.findall] reports an unset group. *)
Definition group (t : text) (m : match_result) (n : nat) : text :=
  match find (fun p => Nat.eqb (fst p) n) (m_caps m) with
  | Some (_, (s, e)) => slice t s e
  | None => []
  end.

(** Building blocks. *)
Definition any : regex := RClass (fun _ => true).
Definition cls (p : Z -> bool) : regex := RClass p.
Definition plus (a : regex) : regex := RSeq a (RStar true a).
Definition star (a : regex) : regex := RStar true a.
Definition lazy_star (a : regex) : regex := RStar false a.
Definition opt (a : regex) : regex := RAlt a REps.
Fixpoint seqs (rs : list regex) : regex :=
  match rs with
  | [] => REps
  | [r] => r
  | r :: rs' => RSeq r (seqs rs')
  end.
Fixpoint alts (rs : list regex) : regex :=
  match rs with
  | [] => RClass (fun _ => false)
  | [r] => r
  | r :: rs' => RAlt r (alts rs')
  end.
(** Literal text, case-sensitive or under IGNORECASE. *)
Definition lit (s : string) : regex :=
  seqs (map (fun c => RClass (Z.eqb c)) (str s)).
Definition lit_ci (s : string) : regex :=
  seqs (map (fun c => RClass (fun x => ci_eq x c)) (str s)).
Definition digit : regex := RClass is_digit.
Definition space : regex := RClass is_space.
Fixpoint rep (n : nat) (a : regex) : regex :=
  match n with O => REps | S n' => RSeq a (rep n' a) end.

End Regex.
Import Regex.

(** The section regex of [_extract_jd_requirements] for the skills
    category, written in the matcher's syntax; used to cross-check
    [section_group]. *)
Definition skills_section_re : regex :=
  seqs [alts [seqs [alts [lit_ci "required"; lit_ci "key"]; plus space;
                    lit_ci "skills"];
              lit_ci "skills";
              seqs [lit_ci "technical"; plus space; lit_ci "qualifications"]];
        opt (lit ":"); star space;
        RGroup 1 (lazy_star any);
        alts [seqs [lit_ci (String (ascii_of_nat 10) EmptyString);
                    lit_ci (String (ascii_of_nat 10) EmptyString)];
              seqs [cls (Z.eqb c_nl); cls is_alpha;
                    plus (cls heading_body); lit ":"];
              REndZ]].

Definition section_group_re (r : regex) (t : text) : option text :=
  option_map (fun m => group t m 1) (search r t).

(* ================================================================== *)
(** ** Extractor: [load_common_skills] and [parse_resume_info] *)

(** [list(set(...))]: duplicates dropped. The order of a Python set is
    unspecified; the claims below only use membership. *)
Fixpoint dedup (l : list text) : list text :=
  match l with
  | [] => []
  | x :: xs =>
      if existsb (fun y => if list_eq_dec Z.eq_dec x y then true else false) xs
      then dedup xs else x :: dedup xs
  end.

(** [load_common_skills]: [skills.add(line.strip().lower())] for every line
    of the file (a missing file gives no lines). *)
Definition load_common_skills (file_lines : list text) : list text :=
  dedup (map (fun line => lower (strip line)) file_lines).

(** [KNOWN_SKILLS.sort(key=len, reverse=True)]: a stable sort on
    decreasing length. *)
Fixpoint insert_by_len (x : text) (l : list text) : list text :=
  match l with
  | [] => [x]
  | y :: ys =>
      if (List.length y <? List.length x)%nat then x :: l
      else y :: insert_by_len x ys
  end.

Definition sort_by_len_desc (l : list text) : list text :=
  fold_left (fun acc x => insert_by_len x acc) l [].

Definition KNOWN_SKILLS (file_lines : list text) : list text :=
  sort_by_len_desc (load_common_skills file_lines).

(** A named entity of the spaCy document: its label and its span in the
    text ([ent.text] is the spanned slice). *)
Record entity := { ent_label : text; ent_start : nat; ent_end : nat }.

(** [str.split()]: runs of whitespace separate, empty pieces dropped. *)
Definition words (t : text) : list text :=
  filter (fun w => negb (Nat.eqb (List.length w) 0)) (split_on is_space t).

(** The record returned by [parse_resume_info]. *)
Record CandidateRecord := {
  name : option text;
  email : option text;
  phone : option text;
  skills : list text;
  experience : list text;
  education : list text;
  raw_text : text
}.

Definition email_local (c : Z) : bool :=
  is_alpha c || is_digit c || existsb (Z.eqb c) (str "._%+-").
Definition email_domain (c : Z) : bool :=
  is_alpha c || is_digit c || existsb (Z.eqb c) (str ".-").
Definition in_chars (s : string) (c : Z) : bool := existsb (Z.eqb c) (str s).
Definition not_dot_nl (c : Z) : bool := negb ((c =? 46) || (c =? c_nl)).

(** [[a-zA-Z0-9._%+-]+@[a-zA-Z0-9.-]+\.[a-zA-Z]{2,}] *)
Definition email_pattern : regex :=
  seqs [plus (cls email_local); lit "@"; plus (cls email_domain); lit ".";
        cls is_alpha; plus (cls is_alpha)].

(** [(?:\+?(\d{1,3}))?[-. (]*(\d{3})[-. )]*(\d{3})[-. ]*(\d{4})(?: *x(\d+))?] *)
Definition phone_pattern : regex :=
  seqs [opt (seqs [opt (lit "+");
                   RGroup 1 (seqs [digit; opt (seqs [digit; opt digit])])]);
        star (cls (in_chars "-. (")); RGroup 2 (rep 3 digit);
        star (cls (in_chars "-. )")); RGroup 3 (rep 3 digit);
        star (cls (in_chars "-. ")); RGroup 4 (rep 4 digit);
        opt (seqs [star (lit " "); lit "x"; RGroup 5 (plus digit)])].

(** [(\d+)\s*(?:years|yrs?)\s+(?:of)?\s*(?:experience|exp|background)],
    IGNORECASE. *)
Definition years_experience_pattern : regex :=
  seqs [RGroup 1 (plus digit); star space;
        alts [lit_ci "years"; seqs [lit_ci "yr"; opt (lit_ci "s")]];
        plus space; opt (lit_ci "of"); star space;
        alts [lit_ci "experience"; lit_ci "exp"; lit_ci "background"]].

Definition nl_re : regex := cls (Z.eqb c_nl).

(** [(?:keyword)\s*(.*?)(\n\n|$)], IGNORECASE | DOTALL. *)
Definition education_section_pattern (keyword : string) : regex :=
  seqs [lit_ci keyword; star space; RGroup 1 (lazy_star any);
        RGroup 2 (alts [seqs [nl_re; nl_re]; REndDollar])].

(** [degree_pattern], IGNORECASE. *)
Definition degree_pattern : regex :=
  seqs [alts [seqs [lit_ci "b"; opt (lit "."); opt space; lit_ci "s"];
              seqs [lit_ci "m"; opt (lit "."); opt space; lit_ci "s"];
              seqs [lit_ci "b"; opt (lit "."); opt space; lit_ci "a"];
              seqs [lit_ci "ph"; opt (lit "."); opt space; lit_ci "d"];
              lit_ci "bachelor"; lit_ci "master"; lit_ci "doctor";
              seqs [lit_ci "eng"; lit "."]];
        lazy_star (cls not_dot_nl);
        alts [lit_ci "in"; lit_ci "of"]; plus space;
        RGroup 1 (plus (cls heading_body))].

(** [university_pattern], IGNORECASE. *)
Definition university_pattern : regex :=
  alts [seqs [alts [lit_ci "university"; lit_ci "institute";
                    lit_ci "college"; lit_ci "school"];
              plus space; lit_ci "of"; plus space;
              RGroup 1 (plus (cls heading_body))];
        RGroup 2 (seqs [plus (cls heading_body);
                        alts [lit_ci "university"; lit_ci "institute";
                              lit_ci "college"]])].

(** [\b(?:19|20)\d{2}\b] *)
Definition year_pattern : regex :=
  seqs [RWordB; alts [lit "19"; lit "20"]; digit; digit; RWordB].

Definition is_person (e : entity) : bool :=
  if list_eq_dec Z.eq_dec (ent_label e) (str "PERSON") then true else false.

(** Step 1: the name heuristic. *)
Definition extract_name (ents : list entity) (resume_text : text) : option text :=
  match find (fun e => is_person e &&
                       (2 <=? List.length (words (slice resume_text (ent_start e) (ent_end e))))%nat)
             ents with
  | Some e => Some (slice resume_text (ent_start e) (ent_end e))
  | None =>
      let lines := filter (fun l => negb (Nat.eqb (List.length l) 0))
                          (map strip (split_on (Z.eqb c_nl) resume_text)) in
      find (fun line => negb (existsb (Z.eqb 64) line) &&
                        negb (match search (rep 10 digit) line with
                              | Some _ => true | None => false end) &&
                        (List.length (words line) <? 5)%nat)
           (firstn 3 lines)
  end.

(** Steps 5: the education entries from the first keyword present. *)
Definition education_entries (text_lower : text) (section : text) : list text :=
  (match search degree_pattern section with
   | Some m => [str "Degree: " ++ strip (group section m 1)]
   | None => [] end) ++
  (match search university_pattern section with
   | Some m =>
       let g1 := group section m 1 in
       let uni := if (List.length g1 =? 0)%nat then group section m 2 else g1 in
       [str "University: " ++ strip uni]
   | None => [] end) ++
  (match search year_pattern section with
   | Some m => [str "Year: " ++ group0 section m]
   | None => [] end).

Fixpoint extract_education (text_lower : text) (keywords : list string) : list text :=
  match keywords with
  | [] => []
  | kw :: kws =>
      if contains (str kw) text_lower then
        match search (education_section_pattern kw) text_lower with
        | Some m => education_entries text_lower (group0 text_lower m)
        | None => extract_education text_lower kws
        end
      else extract_education text_lower kws
  end.

(** [parse_resume_info]: [ents] are the entities spaCy finds in the text,
    [file_lines] the lines of the skills file. The experience-section
    search of step 4 only computes an unused local and is omitted. *)
Definition parse_resume_info (ents : list entity) (file_lines : list text)
    (resume_text : text) : CandidateRecord :=
  let text_lower := lower resume_text in
  {| name := extract_name ents resume_text;
     email := option_map (group0 resume_text) (search email_pattern resume_text);
     phone := option_map (fun m => List.concat (map (group resume_text m) [1;2;3;4;5]%nat))
                         (search phone_pattern resume_text);
     skills := filter (fun skill => contains (lower skill) text_lower)
                      (KNOWN_SKILLS file_lines);
     experience :=
       match search years_experience_pattern text_lower with
       | Some m => [group text_lower m 1 ++ str " years experience"]
       | None => []
       end;
     education :=
       extract_education text_lower
         ["education"; "academic background"; "qualifications"]%string;
     raw_text := resume_text |}.

(* ================================================================== *)
(** ** Scorer: [score_resume] *)

(** [int(x)] on a float: truncation toward zero. *)
Definition py_int (q : Q) : Z :=
  if Qle_bool 0 q then Qfloor q else - Qfloor (- q)%Q.

Fixpoint digits_of (fuel : nat) (n : Z) : text :=
  match fuel with
  | O => []
  | S f => if n <? 10 then [48 + n] else digits_of f (n / 10) ++ [48 + n mod 10]
  end.

(** [str(n)] for an integer. *)
Definition z_to_text (n : Z) : text :=
  if n <? 0 then 45 :: digits_of (S (Z.to_nat (Z.log2 (- n)))) (- n)
  else digits_of (S (Z.to_nat (Z.log2 n))) n.

(** Python's [round(x, 2)]: to the nearest hundredth, ties to even. *)
Definition round_half_even (q : Q) : Z :=
  let f := Qfloor q in
  let d := (q - inject_Z f)%Q in
  if Qlt_le_dec d (1 # 2) then f
  else if Qlt_le_dec (1 # 2) d then f + 1
  else if Z.even f then f else f + 1.

Definition round2 (q : Q) : Q := round_half_even (q * 100)%Q # 100.

Definition qmax (a b : Q) : Q := if Qle_bool a b then b else a.

(** [tensor.max().item()] of a non-empty row. *)
Definition max_list (l : list Q) : Q :=
  match l with
  | [] => 0
  | x :: xs => fold_left qmax xs x
  end.

(** The local variables of [score_resume] at its return. *)
Record ScoreTrace := {
  skill_match_score : Q;
  experience_years_in_resume : Z;
  experience_score : Q;
  responsibility_score : Q;
  education_score : Q;
  reasoning_parts : list text;
  total_score : Q
}.

(** [(\d+)\s+years], IGNORECASE. *)
Definition resume_years_pattern : regex :=
  seqs [RGroup 1 (plus digit); plus space; lit_ci "years"].

(** [experience_years_in_resume] *)
Definition resume_years (cand : CandidateRecord) : Z :=
  match experience cand with
  | [] => 0
  | _ =>
      let t := join (str " ") (experience cand) in
      match search resume_years_pattern t with
      | Some m => digits_value (group t m 1)
      | None => 0
      end
  end.

(** Block 2 of [score_resume]: the experience score and its sentence. *)
Definition experience_block (years min_years : Z) : Q * text :=
  if 0 <? min_years then
    if min_years <=? years then
      (100%Q, str "Meets/Exceeds " ++ z_to_text min_years ++
            str " years experience (" ++ z_to_text years ++ str " years found).")
    else
      ((inject_Z years / inject_Z min_years * 100)%Q,
       str "Has " ++ z_to_text years ++ str " years experience (requires " ++
       z_to_text min_years ++ str ").")
  else (100%Q, str "No minimum experience required in JD.").

Section Scoring.

(** [util.cos_sim] of the sentence-transformer embeddings of two texts. *)
Variable cos_sim : text -> text -> Q.

(** Block 1: the skill score and its sentence. *)
Definition skill_block (resume_skills jd_skills : list text) : Q * text :=
  match jd_skills with
  | [] => (100%Q, str "No specific skills required in JD.")
  | _ =>
      match resume_skills with
      | [] => (0%Q, str "No skills found in resume to match against JD skills.")
      | _ =>
          let matched := List.length
            (filter (fun js =>
                       negb (Qle_bool (max_list (map (cos_sim js) resume_skills)) (6 # 10)))
                    jd_skills) in
          let n := List.length jd_skills in
          let sc := (inject_Z (Z.of_nat matched) / inject_Z (Z.of_nat n) * 100)%Q in
          (sc, str "Matched " ++ z_to_text (Z.of_nat matched) ++ str "/" ++
               z_to_text (Z.of_nat n) ++ str " key skills (" ++
               z_to_text (py_int sc) ++ str "%).")
      end
  end.

(** Block 3: the responsibility score and its sentence. *)
Definition responsibility_block (jd_resp : list text) (raw : text) : Q * text :=
  match jd_resp, raw with
  | _ :: _, _ :: _ =>
      let sc := (cos_sim (join (str " ") jd_resp) raw * 100)%Q in
      (sc, str "Overall resume content aligns with responsibilities (" ++
           z_to_text (py_int sc) ++ str "%).")
  | _, _ =>
      (50%Q, str "Cannot assess responsibilities due to missing JD or resume content.")
  end.

(** Block 4: the education score and its sentence. *)
Definition education_block (jd_edu : list text) (edu_text : text) : Q * text :=
  match jd_edu with
  | [] => (100%Q, str "No specific education required in JD.")
  | _ =>
      let matched_edu : Z :=
        if existsb (fun req => contains (lower req) (lower edu_text)) jd_edu
        then 1 else 0 in
      let sc := (inject_Z matched_edu * 100)%Q in
      (sc, str "Education matches JD requirements (" ++ z_to_text (py_int sc) ++
           str "%).")
  end.

Definition score_trace (cand : CandidateRecord) (job_description_text : text)
  : ScoreTrace :=
  let R := _extract_jd_requirements job_description_text in
  let sk := skill_block (skills cand) (req_skills R) in
  let yrs := resume_years cand in
  let ex := experience_block yrs (req_experience_years R) in
  let rs := responsibility_block (req_responsibilities R) (raw_text cand) in
  let ed := education_block (req_education R)
                            (join (str " ") (education cand)) in
  {| skill_match_score := fst sk;
     experience_years_in_resume := yrs;
     experience_score := fst ex;
     responsibility_score := fst rs;
     education_score := fst ed;
     reasoning_parts := [snd sk; snd ex; snd rs; snd ed];
     total_score := (0 + fst sk * (40 # 100) + fst ex * (30 # 100)
                       + fst rs * (20 # 100) + fst ed * (10 # 100))%Q |}.

(** [score_resume] returns [(final_score, overall_reasoning)]. *)
Definition score_resume (cand : CandidateRecord) (job_description_text : text)
  : Q * text :=
  let tr := score_trace cand job_description_text in
  (round2 (total_score tr), join (str " ") (reasoning_parts tr)).

End Scoring.

(* ================================================================== *)
(** ** Concrete inputs used by the witnesses *)

Definition text_eqb (a b : text) : bool :=
  if list_eq_dec Z.eq_dec a b then true else false.

(** A stand-in similarity: 1 for equal texts, 0 otherwise. *)
Definition ex_cos_sim (a b : text) : Q := if text_eqb a b then 1%Q else 0%Q.

Definition ex_vocab : list text := [str "python"; str "sql"; str "aws"].

Definition ex_resume : text :=
  str "Jane Roe" ++ nl_str ++ str "jane@example.com" ++ nl_str ++
  str "Python and SQL developer, 2 years of experience." ++ nl_str ++ nl_str ++
  str "Education: Bachelor of Science in Physics".

Definition ex_cand : CandidateRecord := parse_resume_info [] ex_vocab ex_resume.

Definition ex_jd : text :=
  str "Skills: python, aws" ++ nl_str ++ nl_str ++
  str "Duties: write code" ++ nl_str ++ nl_str ++
  str "Education: physics" ++ nl_str ++ nl_str ++
  str "4+ years of experience".

(** A JD with no skills, responsibilities or education header. *)
Definition ex_jd_bare : text := str "We hire. 3 years experience wanted.".




Definition jd_sample_1 : text :=
  lower (str "Job: dev" ++ nl_str ++ str "Skills:" ++ nl_str ++ nl_str ++
         str "* Python, e-commerce" ++ nl_str ++ str "Benefits" ++ nl_str ++
         str "nice to have: Go").

(** The other regexes of [_extract_jd_requirements] in the matcher's
    syntax, to cross-check the direct scanners. *)
Definition nl_lit : regex := cls (Z.eqb c_nl).

Definition section_tail_re : list regex :=
  [opt (lit ":"); star space;
   RGroup 1 (lazy_star any);
   alts [seqs [nl_lit; nl_lit];
         seqs [nl_lit; cls is_alpha; plus (cls heading_body); lit ":"];
         REndZ]].

Definition responsibilities_section_re : regex :=
  seqs ([alts [seqs [lit_ci "key"; plus space; lit_ci "responsibilities"];
               lit_ci "responsibilities"; lit_ci "duties"]] ++ section_tail_re).

Definition education_section_re : regex :=
  seqs ([alts [lit_ci "education"; lit_ci "qualifications";
               seqs [lit_ci "academic"; plus space; lit_ci "background"]]]
        ++ section_tail_re).

(** [(\d+)\s*(?:\+|plus)?\s*(?:years|yrs?)\s+(?:of\s+)?(?:experience|exp)] *)
Definition jd_years_re : regex :=
  seqs [RGroup 1 (plus digit); star space; opt (alts [lit "+"; lit_ci "plus"]);
        star space; alts [lit_ci "years"; seqs [lit_ci "yr"; opt (lit_ci "s")]];
        plus space; opt (seqs [lit_ci "of"; plus space]);
        alts [lit_ci "experience"; lit_ci "exp"]].

Definition search_years_re (t : text) : option Z :=
  option_map (fun m => digits_value (group t m 1)) (search jd_years_re t).

Definition jd_sample_2 : text :=
  lower (str "Key Responsibilities - build; test" ++ nl_str ++
         str "Duties: none" ++ nl_str ++ nl_str ++ str "Academic  Background:" ++
         nl_str ++ str "BSc, MSc" ++ nl_str ++ str "a:" ++ nl_str ++ str "x" ++
         nl_str ++ str "3 plus yrs  of   exp; 12 yr exp").

(* ================================================================== *)
(** ** What a match of the matcher means

    [re_matches t r i cs j cs'] : the pattern [r] matches [t] from
    position [i] to position [j], turning the captures [cs] into [cs'].
    No matching order is fixed here: this is the set of all matches the
    backtracking search may report. *)

Inductive re_matches (t : text) : regex -> nat -> caps -> nat -> caps -> Prop :=
| rm_class p i c cs :
    nth_error t i = Some c -> p c = true -> re_matches t (RClass p) i cs (S i) cs
| rm_eps i cs : re_matches t REps i cs i cs
| rm_seq a b i j k cs1 cs2 cs3 :
    re_matches t a i cs1 j cs2 -> re_matches t b j cs2 k cs3 ->
    re_matches t (RSeq a b) i cs1 k cs3
| rm_alt_l a b i j cs cs' : re_matches t a i cs j cs' -> re_matches t (RAlt a b) i cs j cs'
| rm_alt_r a b i j cs cs' : re_matches t b i cs j cs' -> re_matches t (RAlt a b) i cs j cs'
| rm_star_nil g a i cs : re_matches t (RStar g a) i cs i cs
| rm_star_cons g a i j k cs1 cs2 cs3 :
    re_matches t a i cs1 j cs2 -> (i < j)%nat -> re_matches t (RStar g a) j cs2 k cs3 ->
    re_matches t (RStar g a) i cs1 k cs3
| rm_group n a i j cs cs' :
    re_matches t a i cs j cs' -> re_matches t (RGroup n a) i cs j ((n, (i, j)) :: cs')
| rm_endz i cs : i = List.length t -> re_matches t REndZ i cs i cs
| rm_dollar i cs :
    ((i =? List.length t)%nat ||
     ((S i =? List.length t)%nat &&
      match nth_error t i with Some c => c =? c_nl | None => false end)) = true ->
    re_matches t REndDollar i cs i cs
| rm_wordb i cs :
    xorb (match i with O => false | S i' => word_at t i' end) (word_at t i) = true ->
    re_matches t RWordB i cs i cs.


(** Patterns without groups or anchors: their matches only look at the
    characters they consume. *)
Fixpoint local_re (r : regex) : bool :=
  match r with
  | RClass _ | REps => true
  | RSeq a b | RAlt a b => local_re a && local_re b
  | RStar _ a => local_re a
  | RGroup _ _ | REndZ | REndDollar | RWordB => false
  end.


(* ================================================================== *)
(** ** [json.dumps] and [json.loads] on a list of strings

    [json.dumps] with its defaults ([ensure_ascii=True], separator [", "]);
    [json.loads] as CPython's C scanner runs it on a JSON array of strings. *)

(** One lowercase hexadecimal digit. *)
Definition hex_digit (d : Z) : Z := if d <? 10 then 48 + d else 87 + d.

(** ['{0:04x}'.format(n)] for [0 <= n < 0x10000]. *)
Definition hex4 (n : Z) : text :=
  [hex_digit (n / 4096); hex_digit (n / 256 mod 16);
   hex_digit (n / 16 mod 16); hex_digit (n mod 16)].

Definition u_escape (n : Z) : text := 92 :: 117 :: hex4 n.

(** [py_encode_basestring_ascii] on one code point. *)
Definition json_escape_char (c : Z) : text :=
  if c =? 92 then [92; 92]
  else if c =? 34 then [92; 34]
  else if c =? 8 then [92; 98]
  else if c =? 12 then [92; 102]
  else if c =? 10 then [92; 110]
  else if c =? 13 then [92; 114]
  else if c =? 9 then [92; 116]
  else if (32 <=? c) && (c <=? 126) then [c]
  else if 65536 <=? c then
    let n := c - 65536 in
    let s1 := Z.lor 55296 (Z.land (Z.shiftr n 10) 1023) in
    let s2 := Z.lor 56320 (Z.land n 1023) in
    u_escape s1 ++ u_escape s2
  else u_escape c.

Definition json_encode_string (s : text) : text :=
  34 :: flat_map json_escape_char s ++ [34].

(** [json.dumps(l)] for a list of strings. *)
Definition json_dumps_strs (l : list text) : text :=
  91 :: join (str ", ") (map json_encode_string l) ++ [93].

Definition is_json_ws (c : Z) : bool :=
  (c =? 32) || (c =? 9) || (c =? 10) || (c =? 13).

Fixpoint skip_ws (t : text) : text :=
  match t with
  | c :: t' => if is_json_ws c then skip_ws t' else t
  | [] => []
  end.

(** The value of one hexadecimal digit, either case. *)
Definition hex_value (c : Z) : option Z :=
  if (48 <=? c) && (c <=? 57) then Some (c - 48)
  else if (97 <=? c) && (c <=? 102) then Some (c - 87)
  else if (65 <=? c) && (c <=? 70) then Some (c - 55)
  else None.

(** Four hexadecimal digits, or [Invalid \uXXXX escape]. *)
Definition hex4_value (t : text) : option Z :=
  match t with
  | [a; b; c; d] =>
      match hex_value a, hex_value b, hex_value c, hex_value d with
      | Some va, Some vb, Some vc, Some vd => Some (((va * 16 + vb) * 16 + vc) * 16 + vd)
      | _, _, _, _ => None
      end
  | _ => None
  end.

(** The one-character escapes of [BACKSLASH]. *)
Definition backslash_char (e : Z) : option Z :=
  if e =? 34 then Some 34
  else if e =? 92 then Some 92
  else if e =? 47 then Some 47
  else if e =? 98 then Some 8
  else if e =? 102 then Some 12
  else if e =? 110 then Some 10
  else if e =? 114 then Some 13
  else if e =? 116 then Some 9
  else None.

Definition is_high_surrogate (u : Z) : bool := (55296 <=? u) && (u <=? 56319).
Definition is_low_surrogate (u : Z) : bool := (56320 <=? u) && (u <=? 57343).

(** [Py_UNICODE_JOIN_SURROGATES] *)
Definition join_surrogates (hi lo : Z) : Z :=
  Z.lor (Z.shiftl (Z.land hi 1023) 10) (Z.land lo 1023) + 65536.

(** After a [\u] escape of value [u] with the text [t3] behind its four
    digits: a high surrogate followed by a [\u] escape of a low surrogate
    is joined with it (CPython checks [end + 6 < len] first). *)
Definition surrogate_pair (u : Z) (t3 : text) : option (Z * text) :=
  if is_high_surrogate u && (6 <? List.length t3)%nat then
    match t3 with
    | b :: v :: t5 =>
        if (b =? 92) && (v =? 117) then
          match hex4_value (firstn 4 t5) with
          | None => None
          | Some u2 =>
              if is_low_surrogate u2 then Some (join_surrogates u u2, skipn 4 t5)
              else Some (u, t3)
          end
        else Some (u, t3)
    | _ => Some (u, t3)
    end
  else Some (u, t3).

(** [scanstring] in strict mode, from just after the opening quote: the
    decoded characters and the text after the closing quote. [fuel] bounds
    the number of characters decoded. *)
Fixpoint scanstring (fuel : nat) (t : text) : option (text * text) :=
  match fuel with
  | O => None
  | S f =>
      match t with
      | [] => None
      | c :: t1 =>
          if c =? 34 then Some ([], t1)
          else if c =? 92 then
            match t1 with
            | [] => None
            | e :: t2 =>
                if e =? 117 then
                  if (List.length t2 <=? 4)%nat then None else
                  match hex4_value (firstn 4 t2) with
                  | None => None
                  | Some u =>
                      match surrogate_pair u (skipn 4 t2) with
                      | None => None
                      | Some (u', t4) =>
                          match scanstring f t4 with
                          | Some (s, r) => Some (u' :: s, r)
                          | None => None
                          end
                      end
                  end
                else
                  match backslash_char e with
                  | None => None
                  | Some c' =>
                      match scanstring f t2 with
                      | Some (s, r) => Some (c' :: s, r)
                      | None => None
                      end
                  end
            end
          else if c <=? 31 then None
          else
            match scanstring f t1 with
            | Some (s, r) => Some (c :: s, r)
            | None => None
            end
      end
  end.

(** The items of a JSON array from its first item on: each a string,
    separated by [,] and closed by [\]]. *)
Fixpoint parse_array_items (fuel : nat) (t : text) : option (list text * text) :=
  match fuel with
  | O => None
  | S f =>
      match t with
      | c :: t1 =>
          if c =? 34 then
            match scanstring (S (List.length t1)) t1 with
            | None => None
            | Some (s, r) =>
                match skip_ws r with
                | d :: r2 =>
                    if d =? 93 then Some ([s], r2)
                    else if d =? 44 then
                      match parse_array_items f (skip_ws r2) with
                      | Some (l, r3) => Some (s :: l, r3)
                      | None => None
                      end
                    else None
                | [] => None
                end
            end
          else None
      | [] => None
      end
  end.

(** [json.loads(t)] when [t] holds a JSON array of strings. [None] when it
    raises; JSON values other than arrays of strings are outside the model
    and also give [None]. *)
Definition json_loads_strs (t : text) : option (list text) :=
  match skip_ws t with
  | c :: t1 =>
      if c =? 91 then
        let t2 := skip_ws t1 in
        match t2 with
        | d :: t3 =>
            if d =? 93 then
              match skip_ws t3 with [] => Some [] | _ => None end
            else
              match parse_array_items (List.length t2) t2 with
              | Some (l, r) => match skip_ws r with [] => Some l | _ => None end
              | None => None
              end
        | [] => None
        end
      else None
  | [] => None
  end.

(** A Unicode scalar value: a code point that is not a surrogate. *)
Definition scalar_value (c : Z) : Prop :=
  (0 <= c <= 1114111) /\ ~ (55296 <= c <= 57343).


Definition scan_cons (c : Z) (o : option (text * text)) : option (text * text) :=
  match o with Some (s, r) => Some (c :: s, r) | None => None end.


(* ================================================================== *)
(** ** [db_manager]: the two tables of the SQLite file

    The upload and screening timestamps ([DEFAULT CURRENT_TIMESTAMP]) are
    not modelled. [db_connectable] says whether [sqlite3.connect(DB_FILE)]
    succeeds; a statement on a missing table raises [sqlite3.Error]. *)

(** A row of [resumes]; list columns hold their [json.dumps] text. *)
Record resume_row := {
  rr_id : Z;
  rr_filename : text;
  rr_name : option text;
  rr_email : option text;
  rr_phone : option text;
  rr_skills : text;
  rr_experience : text;
  rr_education : text;
  rr_raw_text : text
}.

(** A row of [screening_results]. *)
Record result_row := {
  sr_id : Z;
  sr_resume_id : Z;
  sr_job_description_id : option text;
  sr_job_description_text : text;
  sr_ai_score : Q;
  sr_ai_reasoning : text;
  sr_human_feedback_score : option Q;
  sr_human_feedback_comment : option text
}.

Record Db := {
  db_connectable : bool;
  db_has_tables : bool;
  db_resumes : list resume_row;
  db_results : list result_row;
  db_resumes_seq : Z;   (* [sqlite_sequence] entry of [resumes] *)
  db_results_seq : Z    (* [sqlite_sequence] entry of [screening_results] *)
}.

(** [AUTOINCREMENT]: one more than the largest rowid the table ever held. *)
Definition next_rowid (seq : Z) (ids : list Z) : Z :=
  Z.max seq (fold_right Z.max 0 ids) + 1.

(** A statement runs when the connection opens and the tables exist. *)
Definition db_writable (db : Db) : bool := db_connectable db && db_has_tables db.

(** [create_tables] *)
Definition create_tables (db : Db) : Db :=
  if db_connectable db then
    {| db_connectable := true; db_has_tables := true;
       db_resumes := db_resumes db; db_results := db_results db;
       db_resumes_seq := db_resumes_seq db; db_results_seq := db_results_seq db |}
  else db.

(** [insert_resume(filename, parsed_data)]: the new row id, or [None]. *)
Definition insert_resume (filename : text) (parsed_data : CandidateRecord) (db : Db)
  : option Z * Db :=
  if db_writable db then
    let id := next_rowid (db_resumes_seq db) (map rr_id (db_resumes db)) in
    let row := {| rr_id := id;
                  rr_filename := filename;
                  rr_name := name parsed_data;
                  rr_email := email parsed_data;
                  rr_phone := phone parsed_data;
                  rr_skills := json_dumps_strs (skills parsed_data);
                  rr_experience := json_dumps_strs (experience parsed_data);
                  rr_education := json_dumps_strs (education parsed_data);
                  rr_raw_text := raw_text parsed_data |} in
    (Some id,
     {| db_connectable := db_connectable db; db_has_tables := db_has_tables db;
        db_resumes := db_resumes db ++ [row]; db_results := db_results db;
        db_resumes_seq := id; db_results_seq := db_results_seq db |})
  else (None, db).

(** [insert_screening_result(resume_id, job_description_text, ai_score,
    ai_reasoning, job_description_id)]. SQLite leaves the [FOREIGN KEY]
    unenforced unless [PRAGMA foreign_keys] is on, which this code never
    sets. *)
Definition insert_screening_result (resume_id : Z) (job_description_text : text)
    (ai_score : Q) (ai_reasoning : text) (job_description_id : option text) (db : Db)
  : option Z * Db :=
  if db_writable db then
    let id := next_rowid (db_results_seq db) (map sr_id (db_results db)) in
    let row := {| sr_id := id;
                  sr_resume_id := resume_id;
                  sr_job_description_id := job_description_id;
                  sr_job_description_text := job_description_text;
                  sr_ai_score := ai_score;
                  sr_ai_reasoning := ai_reasoning;
                  sr_human_feedback_score := None;
                  sr_human_feedback_comment := None |} in
    (Some id,
     {| db_connectable := db_connectable db; db_has_tables := db_has_tables db;
        db_resumes := db_resumes db; db_results := db_results db ++ [row];
        db_resumes_seq := db_resumes_seq db; db_results_seq := id |})
  else (None, db).





(** [update_screening_feedback(result_id, human_score, human_comment)]:
    [True] once the [UPDATE] ran, whether or not a row matched. *)
Definition update_screening_feedback (result_id : Z) (human_score : option Q)
    (human_comment : option text) (db : Db) : bool * Db :=
  if db_writable db then
    (true,
     {| db_connectable := db_connectable db; db_has_tables := db_has_tables db;
        db_resumes := db_resumes db;
        db_results :=
          map (fun r =>
                 if sr_id r =? result_id then
                   {| sr_id := sr_id r; sr_resume_id := sr_resume_id r;
                      sr_job_description_id := sr_job_description_id r;
                      sr_job_description_text := sr_job_description_text r;
                      sr_ai_score := sr_ai_score r; sr_ai_reasoning := sr_ai_reasoning r;
                      sr_human_feedback_score := human_score;
                      sr_human_feedback_comment := human_comment |}
                 else r) (db_results db);
        db_resumes_seq := db_resumes_seq db; db_results_seq := db_results_seq db |})
  else (false, db).




(* ================================================================== *)
(** ** [app.screen_resumes_endpoint] *)

(** An uploaded file of the [resume_files] field. *)
Record upload := { up_filename : text; up_bytes : list Z }.

(** The parts of the POST request the endpoint reads. *)
Record request := {
  form_job_description : option text;     (* request.form['job_description'] *)
  files_resume_files : option (list upload) (* request.files.getlist('resume_files') *)
}.

(** One entry of [processed_candidates]; [cand_name] is [None] for JSON
    [null]. *)
Record candidate_entry := {
  cand_id : option Z;
  cand_filename : text;
  cand_name : option text;
  cand_score : Q;
  cand_reasoning : text;
  cand_extracted_skills : list text
}.

Inductive response :=
| BadRequest (error : text)               (* status 400, {"error": ...} *)
| ScreenSuccess (candidates : list candidate_entry). (* {"status": "success", ...} *)

(** [list.sort(key=score, reverse=True)]: stable, highest score first. *)
Fixpoint insert_by_score (x : candidate_entry) (l : list candidate_entry)
  : list candidate_entry :=
  match l with
  | [] => [x]
  | y :: l' =>
      if Qle_bool (cand_score x) (cand_score y) then y :: insert_by_score x l'
      else x :: l
  end.

Definition sort_by_score_desc (l : list candidate_entry) : list candidate_entry :=
  fold_left (fun acc x => insert_by_score x acc) l [].

Definition value_error_reasoning : text :=
  str "File processing/parsing error: Could not extract text from resume. File might be empty or unreadable.".

Definition db_error_reasoning : text :=
  str "Server error during processing: Failed to save resume to database.".

Section Endpoint.

(** [werkzeug.utils.secure_filename] *)
Variable secure_filename : text -> text.
(** [extract_text_from_file] of the saved upload; its definition is not in
    the repository. It sees the file's extension through the name. *)
Variable extract_text_from_file : text -> list Z -> text.
(** The spaCy entities of a text, and the lines of [common_skills.txt]. *)
Variable nlp_ents : text -> list entity.
Variable skill_file_lines : list text.
(** [util.cos_sim] of the sentence embeddings. *)
Variable cos_sim : text -> text -> Q.

(** The body of the loop for one file with a non-empty name. *)
Definition process_file (job_description : text) (db : Db) (f : upload)
  : candidate_entry * Db :=
  let original_filename := secure_filename (up_filename f) in
  let raw_text := extract_text_from_file original_filename (up_bytes f) in
  match raw_text with
  | [] =>
      (* ValueError: parsed_data stays {} *)
      ({| cand_id := None; cand_filename := original_filename;
          cand_name := Some (str "N/A"); cand_score := round2 0;
          cand_reasoning := value_error_reasoning; cand_extracted_skills := [] |}, db)
  | _ =>
      let parsed_data := parse_resume_info (nlp_ents raw_text) skill_file_lines raw_text in
      let (resume_db_id, db1) := insert_resume original_filename parsed_data db in
      match resume_db_id with
      | Some id =>
          if id =? 0 then
            ({| cand_id := Some id; cand_filename := original_filename;
                cand_name := name parsed_data; cand_score := round2 0;
                cand_reasoning := db_error_reasoning;
                cand_extracted_skills := skills parsed_data |}, db1)
          else
            let (ai_score, ai_reasoning) := score_resume cos_sim parsed_data job_description in
            let db2 := snd (insert_screening_result id job_description ai_score
                              ai_reasoning None db1) in
            ({| cand_id := Some id; cand_filename := original_filename;
                cand_name := name parsed_data; cand_score := round2 ai_score;
                cand_reasoning := ai_reasoning;
                cand_extracted_skills := skills parsed_data |}, db2)
      | None =>
          ({| cand_id := None; cand_filename := original_filename;
              cand_name := name parsed_data; cand_score := round2 0;
              cand_reasoning := db_error_reasoning;
              cand_extracted_skills := skills parsed_data |}, db1)
      end
  end.

(** The [for resume_file in resume_files] loop. *)
Fixpoint process_files (job_description : text) (db : Db) (fs : list upload)
  : list candidate_entry * Db :=
  match fs with
  | [] => ([], db)
  | f :: fs' =>
      match up_filename f with
      | [] => process_files job_description db fs'
      | _ =>
          let (c, db1) := process_file job_description db f in
          let (cs, db2) := process_files job_description db1 fs' in
          (c :: cs, db2)
      end
  end.

Definition screen_resumes_endpoint (req : request) (db : Db) : response * Db :=
  match form_job_description req with
  | None => (BadRequest (str "Missing 'job_description' form field"), db)
  | Some job_description =>
      match files_resume_files req with
      | None => (BadRequest (str "No 'resume_files' part in the request"), db)
      | Some resume_files =>
          if (match resume_files with [] => true | _ => false end) ||
             forallb (fun f => match up_filename f with [] => true | _ => false end)
                     resume_files
          then (BadRequest (str "No files selected or uploaded"), db)
          else
            let (processed, db') := process_files job_description db resume_files in
            (ScreenSuccess (sort_by_score_desc processed), db')
      end
  end.

End Endpoint.


Definition score_desc (a b : candidate_entry) : Prop := (cand_score b <= cand_score a)%Q.

Definition named_upload (f : upload) : bool :=
  match up_filename f with [] => false | _ => true end.

(** Every screening result names a stored resume. *)
Definition results_reference_resumes (db : Db) : Prop :=
  Forall (fun r => In (sr_resume_id r) (map rr_id (db_resumes db))) (db_results db).

(** Concrete inputs for the witnesses of the parser, scorer, database and
    endpoint properties. *)

Definition ex_resume_phone : text :=
  str "John Smith" ++ nl_str ++ str "Phone: +1 (555) 123-4567" ++ nl_str ++
  str "Skills: AWS, Python".
Definition ex_jd_empty : text := str "We are hiring.".
Definition ex_db : Db :=
  {| db_connectable := true; db_has_tables := true; db_resumes := []; db_results := [];
     db_resumes_seq := 0; db_results_seq := 0 |}.
Definition ex_db_down : Db :=
  {| db_connectable := false; db_has_tables := true; db_resumes := []; db_results := [];
     db_resumes_seq := 0; db_results_seq := 0 |}.
Definition ex_secure_filename (t : text) : text := t.
Definition ex_extract (_ : text) (bytes : list Z) : text := bytes.
Definition ex_ents (_ : text) : list entity := [].
Definition ex_upload : upload := {| up_filename := str "jane.txt"; up_bytes := ex_resume |}.
Definition ex_upload_empty : upload := {| up_filename := str "empty.txt"; up_bytes := [] |}.
Definition ex_upload_blank : upload := {| up_filename := []; up_bytes := [] |}.
Definition ex_request : request :=
  {| form_job_description := Some ex_jd;
     files_resume_files := Some [ex_upload_empty; ex_upload; ex_upload_blank] |}.
Definition ex_cand_noskills : CandidateRecord :=
  {| name := name ex_cand; email := email ex_cand; phone := phone ex_cand; skills := [];
     experience := experience ex_cand; education := education ex_cand;
     raw_text := raw_text ex_cand |}.
Definition ex_cand_anon : CandidateRecord :=
  {| name := None; email := None; phone := None; skills := skills ex_cand;
     experience := experience ex_cand; education := education ex_cand;
     raw_text := raw_text ex_cand |}.

Definition ex_db1 : Db :=
  snd (screen_resumes_endpoint ex_secure_filename ex_extract ex_ents ex_vocab ex_cos_sim
         ex_request ex_db).

(* ================================================================== *)
(** ** Examples: the miner on sample texts, and the direct scanners
    against the regex matcher *)

Example extract_sample :
  _extract_jd_requirements
    (str "Key Responsibilities: build APIs" ++ nl_str ++ nl_str ++
     str "Required Skills: Python, SQL; AWS" ++ nl_str ++
     str "- Docker" ++ nl_str ++ nl_str ++
     str "5+ years of experience")
  = {| req_skills := [str "python"; str "sql"; str "aws"; str "docker"];
       req_responsibilities := [str "build apis"];
       req_experience_years := 5;
       req_education := [] |}.
Proof. vm_compute. reflexivity. Qed.

Example section_group_agrees_1 :
  section_group skills_headers jd_sample_1 =
  section_group_re skills_section_re jd_sample_1.
Proof. vm_compute. reflexivity. Qed.

Example section_group_agrees_2 :
  section_group responsibilities_headers jd_sample_2 =
    section_group_re responsibilities_section_re jd_sample_2 /\
  section_group education_headers jd_sample_2 =
    section_group_re education_section_re jd_sample_2 /\
  section_group skills_headers jd_sample_2 =
    section_group_re skills_section_re jd_sample_2 /\
  search_years jd_sample_2 = search_years_re jd_sample_2 /\
  search_years jd_sample_1 = search_years_re jd_sample_1.
Proof. vm_compute. repeat split; reflexivity. Qed.

(* ================================================================== *)
(** ** Lemmas on the text primitives *)

Lemma lstrip_suffix (t : text) : exists p, t = p ++ lstrip t.
Proof.
  induction t as [|c t IH]; simpl.
  - exists []. reflexivity.
  - destruct (is_space c).
    + destruct IH as [p Hp]. exists (c :: p). simpl. congruence.
    + exists []. reflexivity.
Qed.

Lemma lstrip_head (t : text) c r : lstrip t = c :: r -> is_space c = false.
Proof.
  induction t as [|d t IH]; simpl; [discriminate|].
  destruct (is_space d) eqn:E; [exact IH|].
  intros H. injection H as -> _. exact E.
Qed.

Lemma lstrip_nonspace (t : text) :
  (forall c r, t = c :: r -> is_space c = false) -> lstrip t = t.
Proof.
  destruct t as [|c r]; simpl; [reflexivity|].
  intros H. rewrite (H c r eq_refl). reflexivity.
Qed.



Lemma strip_idem (t : text) : strip (strip t) = strip t.
Proof.
  unfold strip.
  set (z := lstrip t). set (w := lstrip (rev z)).
  destruct (lstrip_suffix (rev z)) as [p Hp]. fold w in Hp.
  assert (Hz : z = rev w ++ rev p).
  { rewrite <- rev_app_distr, <- Hp, rev_involutive. reflexivity. }
  assert (Hrw : lstrip (rev w) = rev w).
  { apply lstrip_nonspace. intros c r Hc.
    apply (lstrip_head t c (r ++ rev p)).
    fold z. rewrite Hz, Hc. reflexivity. }
  rewrite Hrw, rev_involutive.
  assert (Hw : lstrip w = w).
  { apply lstrip_nonspace. intros c r Hc. unfold w in Hc.
    exact (lstrip_head _ c r Hc). }
  rewrite Hw. reflexivity.
Qed.





(* ================================================================== *)
(** ** Lemmas on the section miner *)











(* ================================================================== *)
(** ** Claims on the requirement miner *)







(* ================================================================== *)
(** ** Lemmas on the scorer *)

Lemma is_prefix_app (n b : text) : is_prefix n (n ++ b) = true.
Proof. induction n as [|c n IH]; simpl; [reflexivity|]. rewrite Z.eqb_refl. exact IH. Qed.

Lemma contains_prefix (n h : text) : is_prefix n h = true -> contains n h = true.
Proof. destruct h; simpl; intros ->; reflexivity. Qed.

Lemma contains_app (a n b : text) : contains n (a ++ n ++ b) = true.
Proof.
  induction a as [|c a IH]; simpl.
  - apply contains_prefix, is_prefix_app.
  - rewrite IH. apply orb_true_r.
Qed.

Lemma join_contains (sep x : text) (parts : list text) :
  In x parts -> contains x (join sep parts) = true.
Proof.
  induction parts as [|p parts IH]; simpl; [intros []|].
  intros [Hpx|H].
  - subst p. destruct parts as [|q parts].
    + rewrite <- (app_nil_r x) at 2. exact (contains_app [] x []).
    + exact (contains_app [] x _).
  - destruct parts as [|q parts]; [destruct H|].
    specialize (IH H).
    rewrite app_assoc.
    revert IH. generalize (join sep (q :: parts)). intros j Hj.
    clear - Hj. induction (p ++ sep) as [|c a IHa]; simpl; [exact Hj|].
    rewrite IHa. apply orb_true_r.
Qed.

Lemma round_half_even_compat x y :
  x == y -> round_half_even x = round_half_even y.
Proof.
  intros Hxy. unfold round_half_even.
  rewrite (Qfloor_comp x y Hxy).
  set (f := Qfloor y).
  assert (Hd : (x - inject_Z f == y - inject_Z f)%Q) by (rewrite Hxy; reflexivity).
  destruct (Qlt_le_dec (x - inject_Z f) (1 # 2)) as [H1|H1];
  destruct (Qlt_le_dec (y - inject_Z f) (1 # 2)) as [H2|H2];
  try reflexivity; try (exfalso; rewrite Hd in *; lra).
  destruct (Qlt_le_dec (1 # 2) (x - inject_Z f)) as [H3|H3];
  destruct (Qlt_le_dec (1 # 2) (y - inject_Z f)) as [H4|H4];
  try reflexivity; exfalso; rewrite Hd in *; lra.
Qed.

Lemma round2_compat x y : x == y -> round2 x = round2 y.
Proof.
  intros H. unfold round2. f_equal. apply round_half_even_compat.
  rewrite H. reflexivity.
Qed.

Lemma round_half_even_bounds q :
  (0 <= q)%Q -> (q <= 10000)%Q -> (0 <= round_half_even q <= 10000)%Z.
Proof.
  intros H0 H1. unfold round_half_even.
  set (f := Qfloor q).
  assert (Hf0 : (0 <= f)%Z).
  { pose proof (Qfloor_resp_le 0 q H0) as H. exact H. }
  assert (Hf1 : (f <= 10000)%Z).
  { pose proof (Qfloor_resp_le q (inject_Z 10000) H1) as H.
    rewrite Qfloor_Z in H. exact H. }
  assert (Hup : (0 < q - inject_Z f)%Q -> (f < 10000)%Z).
  { intros Hd. rewrite Zlt_Qlt. change (inject_Z 10000) with 10000%Q. lra. }
  destruct (Qlt_le_dec (q - inject_Z f) (1 # 2)); [lia|].
  assert (Hpos : (0 < q - inject_Z f)%Q) by lra.
  specialize (Hup Hpos).
  destruct (Qlt_le_dec (1 # 2) (q - inject_Z f)); [lia|].
  destruct (Z.even f); lia.
Qed.

Lemma round2_bounds q :
  (0 <= q)%Q -> (q <= 100)%Q -> (0 <= round2 q /\ round2 q <= 100)%Q.
Proof.
  intros H0 H1. unfold round2.
  destruct (round_half_even_bounds (q * 100)) as [Hl Hu]; [lra|lra|].
  split; unfold Qle; simpl; lia.
Qed.

Lemma digits_value_nonneg (ds : text) :
  Forall (fun c => is_digit c = true) ds -> (0 <= digits_value ds)%Z.
Proof.
  unfold digits_value. intros H.
  enough (forall acc, (0 <= acc)%Z -> (0 <= fold_left (fun acc c => acc * 10 + (c - 48)) ds acc)%Z)
    by (apply H0; lia).
  induction H as [|c ds Hc Hds IH]; simpl; intros acc Hacc; [exact Hacc|].
  apply IH. unfold is_digit in Hc. apply andb_prop in Hc as [Hc _].
  apply Z.leb_le in Hc. lia.
Qed.





Lemma score_resume_reasoning cos_sim cand jd :
  snd (score_resume cos_sim cand jd) =
  join (str " ") (reasoning_parts (score_trace cos_sim cand jd)).
Proof. reflexivity. Qed.

Lemma reasoning_contains cos_sim cand jd x :
  In x (reasoning_parts (score_trace cos_sim cand jd)) ->
  contains x (snd (score_resume cos_sim cand jd)) = true.
Proof. intros H. rewrite score_resume_reasoning. apply join_contains, H. Qed.

Lemma total_score_weighted cos_sim cand jd :
  let tr := score_trace cos_sim cand jd in
  (total_score tr ==
   (40 # 100) * skill_match_score tr + (30 # 100) * experience_score tr +
   (20 # 100) * responsibility_score tr + (10 # 100) * education_score tr)%Q.
Proof.
  unfold score_trace. cbv beta zeta.
  cbn [total_score skill_match_score experience_score responsibility_score
       education_score].
  ring.
Qed.

Lemma experience_block_pos (m n : Z) :
  (0 < m)%Z ->
  fst (experience_block n m) =
  if (m <=? n)%Z then 100%Q else (inject_Z n / inject_Z m * 100)%Q.
Proof.
  intros Hm. unfold experience_block.
  replace (0 <? m)%Z with true by (symmetry; apply Z.ltb_lt; exact Hm).
  destruct (m <=? n)%Z; reflexivity.
Qed.

Lemma experience_block_nonpos (m n : Z) :
  (m <= 0)%Z -> fst (experience_block n m) = 100%Q.
Proof.
  intros Hm. unfold experience_block.
  replace (0 <? m)%Z with false by (symmetry; apply Z.ltb_ge; exact Hm).
  reflexivity.
Qed.

Lemma ratio_le_100 (n m : Z) :
  (0 < m)%Z -> (n <= m)%Z -> (inject_Z n / inject_Z m * 100 <= 100)%Q.
Proof.
  intros Hm Hn.
  assert (Hm' : (inject_Z 0 < inject_Z m)%Q) by (rewrite <- Zlt_Qlt; exact Hm).
  assert (Hn' : (inject_Z n <= inject_Z m)%Q) by (rewrite <- Zle_Qle; exact Hn).
  assert (H1 : (inject_Z n / inject_Z m <= 1)%Q).
  { apply (Qmult_le_r _ _ (inject_Z m)); [exact Hm'|].
    unfold Qdiv. rewrite <- Qmult_assoc, (Qmult_comm (/ inject_Z m)), Qmult_inv_r.
    - rewrite Qmult_1_r, Qmult_1_l. exact Hn'.
    - intros E. rewrite E in Hm'. discriminate. }
  lra.
Qed.

Lemma ratio_mono (n1 n2 m : Z) :
  (0 < m)%Z -> (n1 <= n2)%Z ->
  (inject_Z n1 / inject_Z m * 100 <= inject_Z n2 / inject_Z m * 100)%Q.
Proof.
  intros Hm Hn.
  assert (Hm' : (inject_Z 0 < inject_Z m)%Q) by (rewrite <- Zlt_Qlt; exact Hm).
  assert (Hn' : (inject_Z n1 <= inject_Z n2)%Q) by (rewrite <- Zle_Qle; exact Hn).
  apply Qmult_le_compat_r; [|lra].
  unfold Qdiv. apply Qmult_le_compat_r; [exact Hn'|].
  apply Qlt_le_weak, Qinv_lt_0_compat, Hm'.
Qed.

(* ================================================================== *)
(** ** Claims on the scorer *)


(** C4. Without education terms the education sub-score is 100 and the
    reasoning says so; with terms it is 100 when some term is a
    case-insensitive substring of the candidate's joined education
    entries, and 0 otherwise. *)
Theorem C4_education_subscore (cos_sim : text -> text -> Q)
    (cand : CandidateRecord) (jd_text : text) :
  let R := _extract_jd_requirements jd_text in
  let tr := score_trace cos_sim cand jd_text in
  let edu_text := join (str " ") (education cand) in
  (req_education R = [] ->
     (education_score tr == 100)%Q /\
     contains (str "No specific education required in JD.")
              (snd (score_resume cos_sim cand jd_text)) = true) /\
  (req_education R <> [] ->
     ((exists term, In term (req_education R) /\
                    contains (lower term) (lower edu_text) = true) ->
      (education_score tr == 100)%Q) /\
     (~ (exists term, In term (req_education R) /\
                      contains (lower term) (lower edu_text) = true) ->
      (education_score tr == 0)%Q)).
Proof.
  intros R tr edu_text.
  assert (Hsc : education_score tr = fst (education_block (req_education R) edu_text))
    by reflexivity.
  assert (Hin : In (snd (education_block (req_education R) edu_text))
                   (reasoning_parts tr))
    by (simpl; auto).
  split.
  - intros Hnil. rewrite Hsc. rewrite Hnil in Hin |- *. split; [reflexivity|].
    exact (reasoning_contains _ _ _ _ Hin).
  - intros Hne. rewrite Hsc. unfold education_block.
    destruct (req_education R) as [|t0 ts] eqn:E; [contradiction|].
    split.
    + intros Hex. apply existsb_exists in Hex. rewrite Hex. reflexivity.
    + intros Hnex.
      destruct (existsb (fun req => contains (lower req) (lower edu_text)) (t0 :: ts))
        eqn:Eb; [|reflexivity].
      exfalso. apply Hnex. apply existsb_exists in Eb. exact Eb.
Qed.


(** C6. A JD that requires no skills gives a skill sub-score of exactly
    100, whatever the candidate's skills, and the reasoning says no
    skills are required. *)
Theorem C6_no_required_skills (cos_sim : text -> text -> Q)
    (cand : CandidateRecord) (jd_text : text) :
  req_skills (_extract_jd_requirements jd_text) = [] ->
  (skill_match_score (score_trace cos_sim cand jd_text) == 100)%Q /\
  contains (str "No specific skills required in JD.")
           (snd (score_resume cos_sim cand jd_text)) = true.
Proof.
  intros Hnil.
  assert (Hin : In (snd (skill_block cos_sim (skills cand)
                          (req_skills (_extract_jd_requirements jd_text))))
                   (reasoning_parts (score_trace cos_sim cand jd_text)))
    by (simpl; auto).
  rewrite Hnil in Hin. split.
  - change (fst (skill_block cos_sim (skills cand)
                  (req_skills (_extract_jd_requirements jd_text))) == 100)%Q.
    rewrite Hnil. reflexivity.
  - exact (reasoning_contains _ _ _ _ Hin).
Qed.

(** C7. Without JD responsibilities or without candidate raw text the
    responsibility sub-score is exactly 50 and the reasoning notes the
    missing data. *)
Theorem C7_responsibility_neutral (cos_sim : text -> text -> Q)
    (cand : CandidateRecord) (jd_text : text) :
  req_responsibilities (_extract_jd_requirements jd_text) = [] \/
  raw_text cand = [] ->
  (responsibility_score (score_trace cos_sim cand jd_text) == 50)%Q /\
  contains (str "Cannot assess responsibilities due to missing JD or resume content.")
           (snd (score_resume cos_sim cand jd_text)) = true.
Proof.
  intros Hmiss.
  assert (Hblk : responsibility_block cos_sim
                   (req_responsibilities (_extract_jd_requirements jd_text))
                   (raw_text cand)
                 = (50%Q, str "Cannot assess responsibilities due to missing JD or resume content.")).
  { unfold responsibility_block.
    destruct Hmiss as [-> | ->];
      [reflexivity|destruct (req_responsibilities _); reflexivity]. }
  assert (Hin : In (snd (responsibility_block cos_sim
                          (req_responsibilities (_extract_jd_requirements jd_text))
                          (raw_text cand)))
                   (reasoning_parts (score_trace cos_sim cand jd_text)))
    by (simpl; auto).
  rewrite Hblk in Hin. split.
  - change (fst (responsibility_block cos_sim
                  (req_responsibilities (_extract_jd_requirements jd_text))
                  (raw_text cand)) == 50)%Q.
    rewrite Hblk. reflexivity.
  - exact (reasoning_contains _ _ _ _ Hin).
Qed.

(** C8. For a JD minimum [m > 0], the experience sub-score computed by
    [score_resume] ([fst (experience_block years m)]) is non-decreasing
    in the candidate's years and equals 100 from [m] years on. *)
Theorem C8_experience_monotone (m : Z) :
  (0 < m)%Z ->
  (forall n1 n2, (n1 <= n2)%Z ->
     (fst (experience_block n1 m) <= fst (experience_block n2 m))%Q) /\
  (forall n, (m <= n)%Z -> (fst (experience_block n m) == 100)%Q).
Proof.
  intros Hm. split.
  - intros n1 n2 H12. rewrite !experience_block_pos by exact Hm.
    destruct (m <=? n1)%Z eqn:E1; destruct (m <=? n2)%Z eqn:E2;
      apply Z.leb_le in E1 || apply Z.leb_gt in E1;
      apply Z.leb_le in E2 || apply Z.leb_gt in E2.
    + apply Qle_refl.
    + lia.
    + apply ratio_le_100; lia.
    + apply ratio_mono; assumption.
  - intros n Hn. rewrite experience_block_pos by exact Hm.
    replace (m <=? n)%Z with true by (symmetry; apply Z.leb_le; exact Hn).
    reflexivity.
Qed.

(* ================================================================== *)
(** ** Claims on the extractor *)

(** C9. Every extracted skill is an entry of the sorted vocabulary
    [KNOWN_SKILLS] and, lowercased, a substring of the lowercased raw
    text. *)
Theorem C9_skills_in_vocabulary (ents : list entity) (file_lines : list text)
    (resume_text : text) :
  let r := parse_resume_info ents file_lines resume_text in
  Forall (fun s => In s (KNOWN_SKILLS file_lines) /\
                   contains (lower s) (lower (raw_text r)) = true)
         (skills r).
Proof.
  simpl. apply Forall_forall. intros s Hs. apply filter_In in Hs. exact Hs.
Qed.

Lemma find_all_false {A} (p : A -> bool) (l : list A) :
  (forall x, p x = false) -> find p l = None.
Proof.
  intros H. induction l as [|x l IH]; simpl; [reflexivity|].
  rewrite H. exact IH.
Qed.

Lemma contains_nil_inv (n : text) : contains n [] = true -> n = [].
Proof. destruct n; simpl; [reflexivity|discriminate]. Qed.

Lemma lower_nil_inv (t : text) : lower t = [] -> t = [].
Proof. destruct t; simpl; [reflexivity|discriminate]. Qed.

(** C2 (counterexample). [parse_resume_info] raises nothing on the empty
    text nor on a blank one: it returns a record with every field absent
    or empty. *)
Lemma C2_empty_text_counterexample :
  parse_resume_info [] ex_vocab [] =
    {| name := None; email := None; phone := None; skills := [];
       experience := []; education := []; raw_text := [] |} /\
  parse_resume_info [] ex_vocab (str "  " ++ nl_str ++ str " ") =
    {| name := None; email := None; phone := None; skills := [];
       experience := []; education := []; raw_text := str "  " ++ nl_str ++ str " " |}.
Proof. split; vm_compute; reflexivity. Qed.

(** C2 (amended). [parse_resume_info] has no emptiness check (the caller
    skips files whose extracted text is empty): on the empty text it
    returns a hollow record, whatever the entities and the vocabulary:
    no name, email or phone, no experience or education entries, an empty
    raw text, and as skills only empty vocabulary entries. *)
Theorem C2_empty_text_hollow_record (ents : list entity) (file_lines : list text) :
  let r := parse_resume_info ents file_lines [] in
  name r = None /\ email r = None /\ phone r = None /\
  Forall (fun s => s = []) (skills r) /\
  experience r = [] /\ education r = [] /\ raw_text r = [].
Proof.
  split; [|split; [|split; [|split; [|split; [|split]]]]];
    try (vm_compute; reflexivity).
  - simpl. unfold extract_name.
    rewrite find_all_false.
    + vm_compute. reflexivity.
    + intros e. unfold slice. rewrite skipn_nil, firstn_nil.
      exact (andb_false_r _).
  - simpl. apply Forall_forall. intros s Hs. apply filter_In in Hs as [_ Hs].
    apply lower_nil_inv, contains_nil_inv, Hs.
Qed.

(* ================================================================== *)
(** ** Witnesses: the claims' hypotheses met on concrete inputs *)

Ltac decide_q := repeat split; vm_compute; first [reflexivity | intro; discriminate].


Lemma C4_witness :
  (req_education (_extract_jd_requirements ex_jd) <> [] /\
   (exists term, In term (req_education (_extract_jd_requirements ex_jd)) /\
      contains (lower term) (lower (join (str " ") (education ex_cand))) = true) /\
   (education_score (score_trace ex_cos_sim ex_cand ex_jd) == 100)%Q) /\
  (req_education (_extract_jd_requirements ex_jd_bare) = [] /\
   (education_score (score_trace ex_cos_sim ex_cand ex_jd_bare) == 100)%Q).
Proof.
  assert (Hne : req_education (_extract_jd_requirements ex_jd) <> [])
    by (vm_compute; discriminate).
  assert (Hex : exists term, In term (req_education (_extract_jd_requirements ex_jd)) /\
      contains (lower term) (lower (join (str " ") (education ex_cand))) = true)
    by (exists (str "physics"); split; [vm_compute; left; reflexivity
                                      | vm_compute; reflexivity]).
  assert (Hnil : req_education (_extract_jd_requirements ex_jd_bare) = [])
    by (vm_compute; reflexivity).
  split; [split; [exact Hne|split; [exact Hex|]]|split; [exact Hnil|]].
  - exact (proj1 (proj2 (C4_education_subscore ex_cos_sim ex_cand ex_jd) Hne) Hex).
  - exact (proj1 (proj1 (C4_education_subscore ex_cos_sim ex_cand ex_jd_bare) Hnil)).
Defined.


Lemma C6_witness :
  req_skills (_extract_jd_requirements ex_jd_bare) = [] /\
  (skill_match_score (score_trace ex_cos_sim ex_cand ex_jd_bare) == 100)%Q /\
  contains (str "No specific skills required in JD.")
           (snd (score_resume ex_cos_sim ex_cand ex_jd_bare)) = true.
Proof.
  assert (H : req_skills (_extract_jd_requirements ex_jd_bare) = [])
    by (vm_compute; reflexivity).
  split; [exact H|]. exact (C6_no_required_skills ex_cos_sim ex_cand ex_jd_bare H).
Defined.

Lemma C7_witness :
  (req_responsibilities (_extract_jd_requirements ex_jd_bare) = [] \/
   raw_text ex_cand = []) /\
  (responsibility_score (score_trace ex_cos_sim ex_cand ex_jd_bare) == 50)%Q /\
  contains (str "Cannot assess responsibilities due to missing JD or resume content.")
           (snd (score_resume ex_cos_sim ex_cand ex_jd_bare)) = true.
Proof.
  assert (H : req_responsibilities (_extract_jd_requirements ex_jd_bare) = [] \/
              raw_text ex_cand = [])
    by (left; vm_compute; reflexivity).
  split; [exact H|]. exact (C7_responsibility_neutral ex_cos_sim ex_cand ex_jd_bare H).
Defined.

Lemma C8_witness :
  (0 < 3)%Z /\
  ((forall n1 n2, (n1 <= n2)%Z ->
      (fst (experience_block n1 3) <= fst (experience_block n2 3))%Q) /\
   (forall n, (3 <= n)%Z -> (fst (experience_block n 3) == 100)%Q)).
Proof.
  assert (H : (0 < 3)%Z) by lia.
  split; [exact H|]. exact (C8_experience_monotone 3 H).
Defined.

(* ================================================================== *)
(** ** Soundness of the matcher *)

Lemma rmatch_sound (t : text) (f : nat) : forall r i cs k x,
  rmatch t f r i cs k = Some x ->
  exists j cs', re_matches t r i cs j cs' /\ k j cs' = Some x.
Proof.
  induction f as [|f IH]; intros r i cs k x H; [discriminate|].
  destruct r as [p| |a b|a b|[|] a|n a| | |]; simpl in H.
  - destruct (nth_error t i) as [c|] eqn:Hc; [|discriminate].
    destruct (p c) eqn:Hp; [|discriminate].
    exists (S i), cs. split; [econstructor; eauto|exact H].
  - exists i, cs. split; [constructor|exact H].
  - apply IH in H as (j & cs2 & Ha & Hk).
    apply IH in Hk as (l & cs3 & Hb & Hk).
    exists l, cs3. split; [econstructor; eauto|exact Hk].
  - destruct (rmatch t f a i cs k) as [y|] eqn:Ha.
    + injection H as <-. apply IH in Ha as (j & cs' & Hm & Hk).
      exists j, cs'. split; [apply rm_alt_l; exact Hm|exact Hk].
    + apply IH in H as (j & cs' & Hm & Hk).
      exists j, cs'. split; [apply rm_alt_r; exact Hm|exact Hk].
  - destruct (rmatch t f a i cs _) as [y|] eqn:Ha.
    + injection H as <-. apply IH in Ha as (j & cs2 & Hm & Hk).
      destruct (Nat.ltb_spec i j) as [Hlt|]; [|discriminate].
      apply IH in Hk as (l & cs3 & Hs & Hk).
      exists l, cs3. split; [eapply rm_star_cons; eauto|exact Hk].
    + exists i, cs. split; [constructor|exact H].
  - destruct (k i cs) as [y|] eqn:Hk.
    + injection H as <-. exists i, cs. split; [constructor|exact Hk].
    + apply IH in H as (j & cs2 & Hm & Hk').
      destruct (Nat.ltb_spec i j) as [Hlt|]; [|discriminate].
      apply IH in Hk' as (l & cs3 & Hs & Hk').
      exists l, cs3. split; [eapply rm_star_cons; eauto|exact Hk'].
  - apply IH in H as (j & cs' & Hm & Hk).
    exists j, ((n, (i, j)) :: cs'). split; [constructor; exact Hm|exact Hk].
  - destruct (Nat.eqb_spec i (List.length t)) as [E|]; [|discriminate].
    exists i, cs. split; [constructor; exact E|exact H].
  - destruct (_ || _) eqn:E; [|discriminate].
    exists i, cs. split; [constructor; exact E|exact H].
  - destruct (xorb _ _) eqn:E; [|discriminate].
    exists i, cs. split; [constructor; exact E|exact H].
Qed.

Lemma search_from_sound r t i n m :
  search_from r t i n = Some m ->
  re_matches t r (m_start m) [] (m_end m) (m_caps m).
Proof.
  revert i. induction n as [|n IH]; intros i H; simpl in H;
    destruct (rmatch t (re_fuel r t) r i [] _) as [[j cs]|] eqn:E.
  - injection H as <-. apply rmatch_sound in E as (j' & cs' & Hm & Hk).
    injection Hk as -> ->. exact Hm.
  - discriminate.
  - injection H as <-. apply rmatch_sound in E as (j' & cs' & Hm & Hk).
    injection Hk as -> ->. exact Hm.
  - exact (IH _ H).
Qed.

Lemma search_sound r t m :
  search r t = Some m -> re_matches t r (m_start m) [] (m_end m) (m_caps m).
Proof. apply search_from_sound. Qed.

(** Inversion of the match relation on the building blocks. *)

Lemma rm_seq_inv t a b i k cs cs3 :
  re_matches t (RSeq a b) i cs k cs3 ->
  exists j cs2, re_matches t a i cs j cs2 /\ re_matches t b j cs2 k cs3.
Proof. intros H. inversion H; subst. eauto. Qed.


Lemma rm_group_inv t n a i j cs cs' :
  re_matches t (RGroup n a) i cs j cs' ->
  exists cs0, re_matches t a i cs j cs0 /\ cs' = (n, (i, j)) :: cs0.
Proof. intros H. inversion H; subst. eauto. Qed.

Lemma rm_class_inv t p i j cs cs' :
  re_matches t (RClass p) i cs j cs' ->
  j = S i /\ cs' = cs /\ exists c, nth_error t i = Some c /\ p c = true.
Proof. intros H. inversion H; subst. eauto. Qed.


Lemma rm_star_class_inv t g p i j cs cs' :
  re_matches t (RStar g (RClass p)) i cs j cs' ->
  cs' = cs /\ (i <= j)%nat /\
  forall m, (i <= m < j)%nat -> exists c, nth_error t m = Some c /\ p c = true.
Proof.
  intros H. remember (RStar g (RClass p)) as r eqn:Er.
  induction H; try discriminate.
  - repeat split; [lia|]. intros m Hm. lia.
  - injection Er as -> ->. apply rm_class_inv in H as (-> & -> & c & Hc & Hp).
    destruct (IHre_matches2 eq_refl) as (-> & Hle & Hall).
    repeat split; [lia|]. intros m Hm.
    destruct (Nat.eq_dec m i) as [->|]; [eauto|]. apply Hall. lia.
Qed.

Lemma rm_plus_class_inv t p i j cs cs' :
  re_matches t (plus (cls p)) i cs j cs' ->
  cs' = cs /\ (i < j)%nat /\
  forall m, (i <= m < j)%nat -> exists c, nth_error t m = Some c /\ p c = true.
Proof.
  intros H. apply rm_seq_inv in H as (k & cs2 & H1 & H2).
  apply rm_class_inv in H1 as (-> & -> & c & Hc & Hp).
  apply rm_star_class_inv in H2 as (-> & Hle & Hall).
  repeat split; [lia|]. intros m Hm.
  destruct (Nat.eq_dec m i) as [->|]; [eauto|]. apply Hall. lia.
Qed.


(** Slices. *)

Lemma firstn_add_app {A} (a b : nat) (l : list A) :
  firstn (a + b) l = firstn a l ++ firstn b (skipn a l).
Proof.
  revert l. induction a as [|a IH]; intros l; [reflexivity|].
  destruct l as [|x l]; simpl; [now rewrite firstn_nil|]. now rewrite IH.
Qed.

Lemma slice_app (t : text) i j k :
  (i <= j <= k)%nat -> slice t i k = slice t i j ++ slice t j k.
Proof.
  intros H. unfold slice.
  replace (k - i)%nat with ((j - i) + (k - j))%nat by lia.
  rewrite firstn_add_app, skipn_skipn.
  replace (j - i + i)%nat with j by lia. reflexivity.
Qed.

Lemma slice_one (t : text) i c : nth_error t i = Some c -> slice t i (S i) = [c].
Proof.
  intros H. unfold slice. replace (S i - i)%nat with 1%nat by lia.
  rewrite <- hd_error_skipn in H. destruct (skipn i t); [discriminate|].
  simpl in H. injection H as ->. reflexivity.
Qed.

Lemma In_slice (t : text) i j c :
  In c (slice t i j) -> exists m, (i <= m < j)%nat /\ nth_error t m = Some c.
Proof.
  intros H. apply In_nth_error in H as [n Hn]. unfold slice in Hn.
  rewrite nth_error_firstn in Hn. destruct (Nat.ltb_spec n (j - i)); [|discriminate].
  rewrite nth_error_skipn in Hn. exists (i + n)%nat. split; [lia|exact Hn].
Qed.

Lemma slice_run (t : text) (p : Z -> bool) i j :
  (forall m, (i <= m < j)%nat -> exists c, nth_error t m = Some c /\ p c = true) ->
  Forall (fun c => p c = true) (slice t i j).
Proof.
  intros H. apply Forall_forall. intros c Hc.
  apply In_slice in Hc as (m & Hm & Hc). destruct (H m Hm) as (c' & Hc' & Hp).
  congruence.
Qed.

Lemma slice_length (t : text) i j :
  (j <= List.length t)%nat -> List.length (slice t i j) = (j - i)%nat.
Proof.
  intros H. unfold slice. rewrite length_firstn, length_skipn. lia.
Qed.

Lemma run_le_length (t : text) (p : Z -> bool) i j :
  (i < j)%nat ->
  (forall m, (i <= m < j)%nat -> exists c, nth_error t m = Some c /\ p c = true) ->
  (j <= List.length t)%nat.
Proof.
  intros Hlt H. destruct (H (j - 1)%nat ltac:(lia)) as (c & Hc & _).
  assert (Hn : nth_error t (j - 1) <> None) by congruence.
  apply nth_error_Some in Hn. lia.
Qed.

Lemma contains_slice (t : text) i j : contains (slice t i j) t = true.
Proof.
  unfold slice.
  rewrite <- (firstn_skipn i t) at 2.
  rewrite <- (firstn_skipn (j - i) (skipn i t)) at 2.
  apply contains_app.
Qed.

(* ================================================================== *)
(** ** Extra properties of [parse_resume_info] *)

(** The email field is a piece of the resume text of the form
    [local@domain.tld]: a non-empty local part of [[a-zA-Z0-9._%+-]], one
    ['@'], a non-empty domain of [[a-zA-Z0-9.-]], a dot and at least two
    letters. In particular it holds exactly one ['@']. *)
Theorem parse_email_shape ents file_lines (resume_text e : text) :
  email (parse_resume_info ents file_lines resume_text) = Some e ->
  contains e resume_text = true /\
  exists l d1 d2, e = l ++ 64 :: d1 ++ 46 :: d2 /\
    l <> [] /\ d1 <> [] /\ (2 <= List.length d2)%nat /\
    Forall (fun c => email_local c = true) l /\
    Forall (fun c => email_domain c = true) d1 /\
    Forall (fun c => is_alpha c = true) d2.
Proof.
  simpl. destruct (search email_pattern resume_text) as [m|] eqn:Hs; [|discriminate].
  simpl. intros He. injection He as <-. split; [apply contains_slice|].
  apply search_sound in Hs. unfold group0.
  destruct m as [s e cs]. simpl in *.
  change email_pattern with
    (RSeq (plus (cls email_local)) (RSeq (RClass (Z.eqb 64))
     (RSeq (plus (cls email_domain)) (RSeq (RClass (Z.eqb 46))
     (RSeq (cls is_alpha) (plus (cls is_alpha))))))) in Hs.
  apply rm_seq_inv in Hs as (j1 & c1 & H1 & Hs).
  apply rm_seq_inv in Hs as (j2 & c2 & H2 & Hs).
  apply rm_seq_inv in Hs as (j3 & c3 & H3 & Hs).
  apply rm_seq_inv in Hs as (j4 & c4 & H4 & Hs).
  apply rm_seq_inv in Hs as (j5 & c5 & H5 & H6).
  apply rm_plus_class_inv in H1 as (_ & L1 & A1).
  apply rm_class_inv in H2 as (-> & _ & a & Ea & Pa).
  apply rm_plus_class_inv in H3 as (_ & L3 & A3).
  apply rm_class_inv in H4 as (-> & _ & b & Eb & Pb).
  apply rm_class_inv in H5 as (-> & _ & x & Ex & Px).
  apply rm_plus_class_inv in H6 as (_ & L6 & A6).
  apply Z.eqb_eq in Pa, Pb. subst a b.
  assert (Hlen : (e <= List.length resume_text)%nat) by (eapply run_le_length; eauto).
  exists (slice resume_text s j1), (slice resume_text (S j1) j3), (slice resume_text (S j3) e).
  rewrite (slice_app resume_text s j1 e) by lia.
  rewrite (slice_app resume_text j1 (S j1) e), (slice_one resume_text j1 64 Ea) by lia.
  rewrite (slice_app resume_text (S j1) j3 e) by lia.
  rewrite (slice_app resume_text j3 (S j3) e), (slice_one resume_text j3 46 Eb) by lia.
  repeat split.
  - intros Hn. apply (f_equal (@List.length Z)) in Hn.
    rewrite slice_length in Hn by lia. simpl in Hn. lia.
  - intros Hn. apply (f_equal (@List.length Z)) in Hn.
    rewrite slice_length in Hn by lia. simpl in Hn. lia.
  - rewrite slice_length by lia. lia.
  - apply slice_run. exact A1.
  - apply slice_run. exact A3.
  - apply slice_run. intros m Hm.
    destruct (Nat.eq_dec m (S j3)) as [->|]; [eauto|]. apply A6. lia.
Qed.







(** Running the matcher on a known text. *)











Lemma rm_local_caps t r i cs j cs' :
  local_re r = true -> re_matches t r i cs j cs' -> cs' = cs.
Proof.
  intros Hr H. induction H; simpl in Hr; try discriminate; auto.
  - apply andb_prop in Hr as [H1 H2]. rewrite IHre_matches2, IHre_matches1; auto.
  - apply andb_prop in Hr as [H1 H2]. auto.
  - apply andb_prop in Hr as [H1 H2]. auto.
  - rewrite IHre_matches2, IHre_matches1; auto.
Qed.







Lemma In_firstn_l {A} (x : A) n l : In x (firstn n l) -> In x l.
Proof. intros H. rewrite <- (firstn_skipn n l). apply in_or_app. left. exact H. Qed.

(** A name comes either from a PERSON entity of at least two words, or,
    when no such entity exists, from one of the first three non-empty
    stripped lines: without '@', with fewer than five words. *)
Theorem parse_name_source ents file_lines (resume_text n : text) :
  name (parse_resume_info ents file_lines resume_text) = Some n ->
  (exists e, In e ents /\ is_person e = true /\
     n = slice resume_text (ent_start e) (ent_end e) /\ (2 <= List.length (words n))%nat)
  \/
  ((forall e, In e ents -> is_person e = true ->
      (List.length (words (slice resume_text (ent_start e) (ent_end e))) < 2)%nat) /\
   In n (firstn 3 (filter (fun l => negb (Nat.eqb (List.length l) 0))
                          (map strip (split_on (Z.eqb c_nl) resume_text)))) /\
   ~ In 64 n /\ (List.length (words n) < 5)%nat /\ n <> [] /\ strip n = n).
Proof.
  cbn [name parse_resume_info]. unfold extract_name.
  destruct (find _ ents) as [e|] eqn:Hf.
  - intros H. injection H as <-. left. apply find_some in Hf as [Hin Hp].
    apply andb_prop in Hp as [Hp Hw]. exists e. repeat split; auto.
    apply Nat.leb_le. exact Hw.
  - intros H. right. split.
    { intros e Hin Hp. apply (find_none _ _ Hf) in Hin. rewrite Hp in Hin. simpl in Hin.
      apply Nat.leb_gt. exact Hin. }
    apply find_some in H as [Hin Hp].
    apply andb_prop in Hp as [Hp Hw]. apply andb_prop in Hp as [Hat _].
    split; [exact Hin|]. split.
    { intros H64. apply negb_true_iff in Hat.
      assert (existsb (Z.eqb 64) n = true) by (apply existsb_exists; exists 64; split; [exact H64|apply Z.eqb_refl]).
      congruence. }
    split; [apply Nat.ltb_lt; exact Hw|].
    apply In_firstn_l in Hin. apply filter_In in Hin as [Hin Hne].
    apply in_map_iff in Hin as (l & <- & _). split.
    + intros E. rewrite E in Hne. discriminate.
    + apply strip_idem.
Qed.

(** The vocabulary. *)

Lemma In_dedup (x : text) l : In x (dedup l) <-> In x l.
Proof.
  induction l as [|y l IH]; simpl; [tauto|].
  destruct (existsb (fun z => if list_eq_dec Z.eq_dec y z then true else false) l) eqn:E.
  - rewrite IH. split; [tauto|]. intros [<-|H]; [|exact H].
    apply existsb_exists in E as (z & Hz & Eq).
    destruct (list_eq_dec Z.eq_dec y z) as [->|]; [exact Hz|discriminate].
  - simpl. rewrite IH. tauto.
Qed.

Lemma NoDup_dedup (l : list text) : NoDup (dedup l).
Proof.
  induction l as [|y l IH]; simpl; [constructor|].
  destruct (existsb (fun z => if list_eq_dec Z.eq_dec y z then true else false) l) eqn:E; [exact IH|].
  constructor; [|exact IH]. rewrite In_dedup. intros Hin.
  assert (existsb (fun z => if list_eq_dec Z.eq_dec y z then true else false) l = true)
    by (apply existsb_exists; exists y; split; [exact Hin|];
        destruct (list_eq_dec Z.eq_dec y y); [reflexivity|congruence]).
  congruence.
Qed.

Lemma insert_by_len_perm (x : text) l : Permutation (insert_by_len x l) (x :: l).
Proof.
  induction l as [|y l IH]; simpl; [reflexivity|].
  destruct (List.length y <? List.length x)%nat; [reflexivity|].
  rewrite IH. apply perm_swap.
Qed.

Lemma sort_by_len_desc_perm_acc (l acc : list text) :
  Permutation (fold_left (fun acc x => insert_by_len x acc) l acc) (l ++ acc).
Proof.
  revert acc. induction l as [|x l IH]; intros acc; simpl; [reflexivity|].
  rewrite IH, insert_by_len_perm. symmetry. apply Permutation_middle.
Qed.

Lemma sort_by_len_desc_perm (l : list text) : Permutation (sort_by_len_desc l) l.
Proof. unfold sort_by_len_desc. rewrite sort_by_len_desc_perm_acc. rewrite app_nil_r. reflexivity. Qed.

Lemma insert_by_len_sorted (x : text) l :
  Sorted (fun a b => (List.length b <= List.length a)%nat) l ->
  Sorted (fun a b => (List.length b <= List.length a)%nat) (insert_by_len x l).
Proof.
  induction l as [|y l IH]; intros H; simpl; [repeat constructor|].
  destruct (Nat.ltb_spec (List.length y) (List.length x)).
  - constructor; [exact H|]. constructor. lia.
  - apply Sorted_inv in H as [Hs Hh]. constructor; [exact (IH Hs)|].
    destruct l as [|z l]; simpl; [constructor; lia|].
    destruct (List.length z <? List.length x)%nat; constructor; [lia|].
    inversion Hh; assumption.
Qed.

Lemma sort_by_len_desc_sorted (l : list text) :
  Sorted (fun a b => (List.length b <= List.length a)%nat) (sort_by_len_desc l).
Proof.
  unfold sort_by_len_desc.
  assert (H : forall acc, Sorted (fun a b => (List.length b <= List.length a)%nat) acc ->
    Sorted (fun a b => (List.length b <= List.length a)%nat)
           (fold_left (fun acc x => insert_by_len x acc) l acc)).
  { induction l as [|x l IH]; intros acc Hacc; simpl; [exact Hacc|].
    apply IH, insert_by_len_sorted, Hacc. }
  apply H. constructor.
Qed.






Lemma KNOWN_SKILLS_NoDup (file_lines : list text) : NoDup (KNOWN_SKILLS file_lines).
Proof.
  apply (Permutation_NoDup (Permutation_sym (sort_by_len_desc_perm _))), NoDup_dedup.
Qed.


(** The skill vocabulary is ordered longest entry first. *)
Theorem known_skills_longest_first (file_lines : list text) :
  StronglySorted (fun a b => (List.length b <= List.length a)%nat) (KNOWN_SKILLS file_lines).
Proof.
  apply Sorted_StronglySorted; [intros x y z; lia|]. apply sort_by_len_desc_sorted.
Qed.





(** The skills found depend only on the lowercase text, and none is
    listed twice. *)
Theorem parse_skills_case_insensitive ents1 ents2 file_lines (t1 t2 : text) :
  lower t1 = lower t2 ->
  skills (parse_resume_info ents1 file_lines t1) =
    skills (parse_resume_info ents2 file_lines t2) /\
  NoDup (skills (parse_resume_info ents1 file_lines t1)).
Proof.
  intros H. cbn [skills parse_resume_info]. rewrite H. split; [reflexivity|].
  apply NoDup_filter, KNOWN_SKILLS_NoDup.
Qed.


(** ** Properties of the scorer *)

Lemma round_half_even_mono q1 q2 :
  (q1 <= q2)%Q -> (round_half_even q1 <= round_half_even q2)%Z.
Proof.
  intros H. unfold round_half_even.
  pose proof (Qfloor_resp_le _ _ H) as Hf.
  pose proof (Qfloor_le q1) as A1. pose proof (Qlt_floor q1) as B1.
  pose proof (Qfloor_le q2) as A2. pose proof (Qlt_floor q2) as B2.
  set (f1 := Qfloor q1) in *. set (f2 := Qfloor q2) in *.
  clearbody f1 f2.
  destruct (Z.eq_dec f1 f2) as [<-|E].
  - destruct (Z.even f1);
    repeat match goal with
           | |- context [Qlt_le_dec ?a ?b] => destruct (Qlt_le_dec a b)
           end; try lia; lra.
  - assert (Hlt : (f1 < f2)%Z) by lia.
    destruct (Z.even f1), (Z.even f2);
    repeat match goal with
           | |- context [Qlt_le_dec ?a ?b] => destruct (Qlt_le_dec a b)
           end; lia.
Qed.

Lemma round2_mono q1 q2 : (q1 <= q2)%Q -> (round2 q1 <= round2 q2)%Q.
Proof.
  intros H. unfold round2, Qle; simpl.
  pose proof (round_half_even_mono (q1 * 100) (q2 * 100)) as M.
  assert (H' : (q1 * 100 <= q2 * 100)%Q) by lra. specialize (M H'). lia.
Qed.

Lemma fold_qmax_spec (xs : list Q) (acc : Q) :
  (acc <= fold_left qmax xs acc)%Q /\
  (forall y, In y xs -> (y <= fold_left qmax xs acc)%Q) /\
  (fold_left qmax xs acc = acc \/ In (fold_left qmax xs acc) xs).
Proof.
  revert acc. induction xs as [|x xs IH]; intros acc; simpl.
  - split; [lra|]. split; [tauto|]. left; reflexivity.
  - assert (Hq : (acc <= qmax acc x)%Q /\ (x <= qmax acc x)%Q /\
                 (qmax acc x = acc \/ qmax acc x = x)).
    { unfold qmax. destruct (Qle_bool acc x) eqn:E.
      - apply Qle_bool_iff in E. split; [exact E|split; [lra|right; reflexivity]].
      - assert (~ (acc <= x)%Q) by (intro C; apply Qle_bool_iff in C; congruence).
        split; [lra|split; [lra|left; reflexivity]]. }
    destruct Hq as (Ha & Hx & Hc).
    destruct (IH (qmax acc x)) as (I1 & I2 & I3).
    split; [lra|]. split.
    + intros y [<-|Hy]; [lra|exact (I2 y Hy)].
    + destruct I3 as [E|E]; [|right; right; exact E].
      rewrite E. destruct Hc as [Hc|Hc]; rewrite Hc; [left|right; left]; reflexivity.
Qed.

Lemma max_list_ge (l : list Q) y : In y l -> (y <= max_list l)%Q.
Proof.
  destruct l as [|x xs]; [intros []|]. simpl. intros [<-|H].
  - exact (proj1 (fold_qmax_spec xs x)).
  - exact (proj1 (proj2 (fold_qmax_spec xs x)) y H).
Qed.

Lemma max_list_in (l : list Q) : l <> [] -> In (max_list l) l.
Proof.
  destruct l as [|x xs]; [congruence|]. intros _. simpl.
  destruct (proj2 (proj2 (fold_qmax_spec xs x))) as [E|E];
    [rewrite E; left; reflexivity|right; exact E].
Qed.

Lemma max_list_map_mono {A} (f g : A -> Q) (l1 l2 : list A) :
  l1 <> [] -> incl l1 l2 -> (forall x, In x l1 -> (f x <= g x)%Q) ->
  (max_list (map f l1) <= max_list (map g l2))%Q.
Proof.
  intros Hne Hincl Hfg.
  assert (Hin : In (max_list (map f l1)) (map f l1)).
  { apply max_list_in. destruct l1; [congruence|discriminate]. }
  apply in_map_iff in Hin as (x & Hx & Hx1). rewrite <- Hx.
  apply Qle_trans with (g x); [exact (Hfg x Hx1)|].
  apply max_list_ge, in_map, Hincl, Hx1.
Qed.

Lemma filter_length_mono {A} (p q : A -> bool) (l : list A) :
  (forall x, In x l -> p x = true -> q x = true) ->
  (List.length (filter p l) <= List.length (filter q l))%nat.
Proof.
  induction l as [|x l IH]; intros H; simpl; [lia|].
  assert (IH' := IH (fun y Hy => H y (or_intror Hy))).
  destruct (p x) eqn:E.
  - rewrite (H x (or_introl eq_refl) E). simpl. lia.
  - destruct (q x); simpl; lia.
Qed.

Lemma filter_length_le {A} (p : A -> bool) (l : list A) :
  (List.length (filter p l) <= List.length l)%nat.
Proof. induction l as [|x l IH]; simpl; [lia|]. destruct (p x); simpl; lia. Qed.

Lemma ratio_nonneg (n m : Z) :
  (0 < m)%Z -> (0 <= n)%Z -> (0 <= inject_Z n / inject_Z m * 100)%Q.
Proof.
  intros Hm Hn. pose proof (ratio_mono 0 n m Hm Hn) as H.
  apply Qle_trans with (2 := H). unfold Qdiv. change (inject_Z 0) with 0%Q.
  rewrite !Qmult_0_l. apply Qle_refl.
Qed.

Lemma skill_block_bounds cos_sim rs js :
  (0 <= fst (skill_block cos_sim rs js) <= 100)%Q.
Proof.
  unfold skill_block. destruct js as [|j js]; [simpl; lra|].
  destruct rs as [|r rs]; [simpl; lra|]. cbv zeta. cbn [fst].
  set (ps := j :: js). set (f := fun js0 => _).
  pose proof (filter_length_le f ps) as Hle.
  assert (Hn : (0 < Z.of_nat (List.length ps))%Z) by (simpl; lia).
  split; [apply ratio_nonneg; lia|apply ratio_le_100; lia].
Qed.

Lemma skill_block_mono cs1 cs2 rs1 rs2 js :
  (forall a b, (cs1 a b <= cs2 a b)%Q) -> incl rs1 rs2 ->
  (fst (skill_block cs1 rs1 js) <= fst (skill_block cs2 rs2 js))%Q.
Proof.
  intros Hcs Hincl.
  destruct rs1 as [|r1 rs1'].
  - unfold skill_block at 1. destruct js as [|j js].
    + unfold skill_block. simpl. lra.
    + cbn [fst]. apply (skill_block_bounds cs2 rs2 (j :: js)).
  - destruct rs2 as [|r2 rs2'].
    { exfalso. apply (Hincl r1 (or_introl eq_refl)). }
    unfold skill_block. destruct js as [|j js]; [simpl; lra|].
    cbv zeta. cbn [fst]. apply ratio_mono; [simpl; lia|].
    apply Nat2Z.inj_le, filter_length_mono. intros x _ Hx.
    apply negb_true_iff in Hx. apply negb_true_iff.
    apply Bool.not_true_iff_false. intros C.
    apply Bool.not_true_iff_false in Hx. apply Hx.
    apply Qle_bool_iff in C. apply Qle_bool_iff.
    apply Qle_trans with (2 := C).
    apply max_list_map_mono; [discriminate|exact Hincl|intros y _; apply Hcs].
Qed.

Lemma resume_years_nonneg (cand : CandidateRecord) : (0 <= resume_years cand)%Z.
Proof.
  unfold resume_years. destruct (experience cand) as [|e es]; [lia|].
  set (t := join (str " ") (e :: es)).
  destruct (search resume_years_pattern t) as [m|] eqn:E; [|lia].
  apply search_sound in E. unfold resume_years_pattern in E. cbn [seqs] in E.
  apply rm_seq_inv in E as (j & cs2 & H1 & H2).
  apply rm_group_inv in H1 as (cs0 & H1 & ->).
  apply rm_plus_class_inv in H1 as (-> & _ & Hrun).
  assert (Hl : local_re (RSeq (plus space) (lit_ci "years")) = true)
    by reflexivity.
  apply (rm_local_caps _ _ _ _ _ _ Hl) in H2.
  unfold group. rewrite H2. cbn [find fst Nat.eqb].
  apply digits_value_nonneg, slice_run, Hrun.
Qed.

Lemma experience_block_bounds years m :
  (0 <= years)%Z -> (0 <= fst (experience_block years m) <= 100)%Q.
Proof.
  intros Hy. destruct (Z_lt_le_dec 0 m) as [Hm|Hm].
  - rewrite (experience_block_pos m years Hm).
    destruct (m <=? years)%Z eqn:E; [lra|].
    apply Z.leb_gt in E.
    split; [apply ratio_nonneg; lia|apply ratio_le_100; lia].
  - rewrite (experience_block_nonpos m years Hm). lra.
Qed.

Lemma education_block_bounds jd_edu t :
  (0 <= fst (education_block jd_edu t) <= 100)%Q.
Proof.
  unfold education_block. destruct jd_edu; [simpl; lra|].
  cbv zeta. cbn [fst].
  destruct (existsb _ _); unfold Qle; simpl; lia.
Qed.

Lemma responsibility_block_bounds cos_sim lo r raw :
  (forall a b, (lo <= cos_sim a b <= 1)%Q) -> (-1 <= lo <= 1 # 2)%Q ->
  (lo * 100 <= fst (responsibility_block cos_sim r raw) <= 100)%Q.
Proof.
  intros Hc Hlo. unfold responsibility_block.
  destruct r as [|x r]; [cbn [fst]; lra|]. destruct raw as [|y raw]; [cbn [fst]; lra|].
  cbv zeta. cbn [fst]. destruct (Hc (join (str " ") (x :: r)) (y :: raw)). lra.
Qed.

Lemma responsibility_block_mono cs1 cs2 r raw :
  (forall a b, (cs1 a b <= cs2 a b)%Q) ->
  (fst (responsibility_block cs1 r raw) <= fst (responsibility_block cs2 r raw))%Q.
Proof.
  intros Hc. unfold responsibility_block.
  destruct r as [|x r]; [simpl; lra|]. destruct raw as [|y raw]; [simpl; lra|].
  cbv zeta. cbn [fst]. specialize (Hc (join (str " ") (x :: r)) (y :: raw)). lra.
Qed.

Lemma score_value cos_sim cand jd :
  fst (score_resume cos_sim cand jd) =
  round2 ((40 # 100) * fst (skill_block cos_sim (skills cand)
                                  (req_skills (_extract_jd_requirements jd))) +
          (30 # 100) * fst (experience_block (resume_years cand)
                                  (req_experience_years (_extract_jd_requirements jd))) +
          (20 # 100) * fst (responsibility_block cos_sim
                                  (req_responsibilities (_extract_jd_requirements jd))
                                  (raw_text cand)) +
          (10 # 100) * fst (education_block
                                  (req_education (_extract_jd_requirements jd))
                                  (join (str " ") (education cand))))%Q.
Proof.
  unfold score_resume. cbn [fst]. apply round2_compat.
  exact (total_score_weighted cos_sim cand jd).
Qed.

(** The final score stays in [[-20, 100]] whenever the similarity stays in
    [[-1, 1]], and in [[0, 100]] when the similarity is non-negative. *)
Theorem score_resume_range (cos_sim : text -> text -> Q)
    (cand : CandidateRecord) (jd_text : text) :
  (forall a b, (-1 <= cos_sim a b <= 1)%Q) ->
  (-20 <= fst (score_resume cos_sim cand jd_text) <= 100)%Q /\
  ((forall a b, (0 <= cos_sim a b)%Q) ->
   (0 <= fst (score_resume cos_sim cand jd_text) <= 100)%Q).
Proof.
  intros Hc. rewrite score_value.
  set (R := _extract_jd_requirements jd_text).
  pose proof (skill_block_bounds cos_sim (skills cand) (req_skills R)) as Hs.
  pose proof (experience_block_bounds (resume_years cand) (req_experience_years R)
                (resume_years_nonneg cand)) as He.
  pose proof (education_block_bounds (req_education R)
                (join (str " ") (education cand))) as Hd.
  split.
  - pose proof (responsibility_block_bounds cos_sim (-1) (req_responsibilities R)
                  (raw_text cand) Hc ltac:(lra)) as Hr.
    split.
    + apply Qle_trans with (round2 (-20)); [vm_compute; discriminate|].
      apply round2_mono. lra.
    + apply Qle_trans with (round2 100); [|vm_compute; discriminate].
      apply round2_mono. lra.
  - intros H0.
    assert (Hc0 : forall a b, (0 <= cos_sim a b <= 1)%Q)
      by (intros a b; split; [apply H0|apply Hc]).
    pose proof (responsibility_block_bounds cos_sim 0 (req_responsibilities R)
                  (raw_text cand) Hc0 ltac:(lra)) as Hr.
    apply round2_bounds; lra.
Qed.

(** The final score is monotone in the similarity and in the candidate's
    skill list: a pointwise larger similarity and a candidate with more
    skills (and the same experience, education and text) never score lower. *)
Theorem score_resume_monotone (cs1 cs2 : text -> text -> Q)
    (c1 c2 : CandidateRecord) (jd_text : text) :
  (forall a b, (cs1 a b <= cs2 a b)%Q) ->
  incl (skills c1) (skills c2) ->
  experience c1 = experience c2 -> education c1 = education c2 ->
  raw_text c1 = raw_text c2 ->
  (fst (score_resume cs1 c1 jd_text) <= fst (score_resume cs2 c2 jd_text))%Q.
Proof.
  intros Hc Hs Hx Hd Hr. rewrite !score_value.
  assert (Hy : resume_years c1 = resume_years c2)
    by (unfold resume_years; rewrite Hx; reflexivity).
  rewrite Hy, Hd, Hr. apply round2_mono.
  pose proof (skill_block_mono cs1 cs2 (skills c1) (skills c2)
                (req_skills (_extract_jd_requirements jd_text)) Hc Hs).
  pose proof (responsibility_block_mono cs1 cs2
                (req_responsibilities (_extract_jd_requirements jd_text))
                (raw_text c2) Hc).
  lra.
Qed.

(** The score depends on the job description only through its lowercase
    form. *)
Theorem score_resume_jd_case_insensitive (cos_sim : text -> text -> Q)
    (cand : CandidateRecord) (jd1 jd2 : text) :
  lower jd1 = lower jd2 ->
  score_resume cos_sim cand jd1 = score_resume cos_sim cand jd2.
Proof.
  intros H. unfold score_resume, score_trace, _extract_jd_requirements.
  rewrite H. reflexivity.
Qed.

(** Name, e-mail and phone never influence the score or the reasoning. *)
Theorem score_resume_ignores_contact (cos_sim : text -> text -> Q)
    (c1 c2 : CandidateRecord) (jd_text : text) :
  skills c1 = skills c2 -> experience c1 = experience c2 ->
  education c1 = education c2 -> raw_text c1 = raw_text c2 ->
  score_resume cos_sim c1 jd_text = score_resume cos_sim c2 jd_text.
Proof.
  intros Hs Hx Hd Hr.
  assert (Hy : resume_years c1 = resume_years c2)
    by (unfold resume_years; rewrite Hx; reflexivity).
  unfold score_resume, score_trace. rewrite Hs, Hy, Hd, Hr. reflexivity.
Qed.

(** A job description from which nothing is mined gives every candidate
    90 (40 + 30 + 10 + 10: the responsibility block is neutral at 50) and
    the same four default sentences. *)
Theorem score_resume_no_requirements (cos_sim : text -> text -> Q)
    (cand : CandidateRecord) (jd_text : text) :
  req_skills (_extract_jd_requirements jd_text) = [] ->
  req_responsibilities (_extract_jd_requirements jd_text) = [] ->
  req_experience_years (_extract_jd_requirements jd_text) = 0%Z ->
  req_education (_extract_jd_requirements jd_text) = [] ->
  (fst (score_resume cos_sim cand jd_text) == 90)%Q /\
  snd (score_resume cos_sim cand jd_text) =
    str "No specific skills required in JD. No minimum experience required in JD. Cannot assess responsibilities due to missing JD or resume content. No specific education required in JD.".
Proof.
  intros Hs Hr Hy Hd. unfold score_resume, score_trace. cbv zeta.
  rewrite Hs, Hr, Hy, Hd. split; [vm_compute; reflexivity|].
  destruct (raw_text cand); vm_compute; reflexivity.
Qed.




Lemma hex_value_digit d : 0 <= d < 16 -> hex_value (hex_digit d) = Some d.
Proof.
  intros Hd. unfold hex_digit, hex_value.
  destruct (d <? 10) eqn:E.
  - apply Z.ltb_lt in E.
    replace ((48 <=? 48 + d) && (48 + d <=? 57)) with true
      by (symmetry; apply andb_true_iff; split; apply Z.leb_le; lia).
    f_equal; lia.
  - apply Z.ltb_ge in E.
    replace ((48 <=? 87 + d) && (87 + d <=? 57)) with false
      by (symmetry; apply andb_false_iff; right; apply Z.leb_gt; lia).
    replace ((97 <=? 87 + d) && (87 + d <=? 102)) with true
      by (symmetry; apply andb_true_iff; split; apply Z.leb_le; lia).
    f_equal; lia.
Qed.

Lemma hex4_value_hex4 n : 0 <= n < 65536 -> hex4_value (hex4 n) = Some n.
Proof.
  intros Hn. unfold hex4, hex4_value.
  rewrite !hex_value_digit by (Z.div_mod_to_equations; lia).
  f_equal. Z.div_mod_to_equations. lia.
Qed.

Lemma lor_low_bits a m :
  0 <= m < 1024 -> Z.lor (a * 1024) m = a * 1024 + m.
Proof.
  intros Hm.
  assert (H0 : Z.land (a * 1024) m = 0); [|rewrite <- Z.lxor_lor, <- Z.add_nocarry_lxor by exact H0; reflexivity].
  apply Z.bits_inj_0. intros i. rewrite Z.land_spec.
  destruct (Z_lt_le_dec i 0) as [Hi|Hi]; [rewrite Z.testbit_neg_r by lia; reflexivity|].
  destruct (Z_lt_le_dec i 10) as [Hi'|Hi'].
  - change 1024 with (2 ^ 10). rewrite Z.mul_pow2_bits_low by lia. reflexivity.
  - rewrite <- (Z.mod_small m (2 ^ 10)) by (simpl; lia).
    rewrite Z.mod_pow2_bits_high by lia. apply andb_false_r.
Qed.

Lemma land_1023 x : Z.land x 1023 = x mod 1024.
Proof. change 1023 with (Z.ones 10). rewrite Z.land_ones by lia. reflexivity. Qed.

Lemma surrogate_split c :
  65536 <= c <= 1114111 ->
  let n := c - 65536 in
  let s1 := Z.lor 55296 (Z.land (Z.shiftr n 10) 1023) in
  let s2 := Z.lor 56320 (Z.land n 1023) in
  0 <= s1 < 65536 /\ 0 <= s2 < 65536 /\
  is_high_surrogate s1 = true /\ is_low_surrogate s2 = true /\
  join_surrogates s1 s2 = c.
Proof.
  intros Hc n s1 s2.
  assert (E1 : s1 = 54 * 1024 + n / 1024).
  { unfold s1. rewrite land_1023, Z.shiftr_div_pow2 by lia.
    change (2 ^ 10) with 1024. rewrite (Z.mod_small (n / 1024)) by (Z.div_mod_to_equations; lia).
    change 55296 with (54 * 1024). apply lor_low_bits. Z.div_mod_to_equations; lia. }
  assert (E2 : s2 = 55 * 1024 + n mod 1024).
  { unfold s2. rewrite land_1023. change 56320 with (55 * 1024).
    apply lor_low_bits. apply Z.mod_pos_bound. lia. }
  rewrite E1, E2. unfold is_high_surrogate, is_low_surrogate, join_surrogates.
  rewrite !land_1023, Z.shiftl_mul_pow2 by lia. change (2 ^ 10) with 1024.
  rewrite (Z.add_comm (54 * 1024)), (Z.add_comm (55 * 1024)), !Z.mod_add by lia.
  rewrite (Z.mod_small (n / 1024)) by (Z.div_mod_to_equations; lia).
  rewrite Z.mod_mod by lia.
  rewrite lor_low_bits by (apply Z.mod_pos_bound; lia).
  repeat split; try (Z.div_mod_to_equations; lia);
    apply andb_true_iff; split; apply Z.leb_le; Z.div_mod_to_equations; lia.
Qed.

Lemma hex4_length n : List.length (hex4 n) = 4%nat.
Proof. reflexivity. Qed.

Lemma firstn_hex4 n t : firstn 4 (hex4 n ++ t) = hex4 n.
Proof. reflexivity. Qed.

Lemma skipn_hex4 n t : skipn 4 (hex4 n ++ t) = t.
Proof. reflexivity. Qed.


(** Decoding the escape of one scalar value gives it back. *)
Lemma scanstring_escape c t f :
  scalar_value c -> t <> [] ->
  scanstring (S f) (json_escape_char c ++ t) = scan_cons c (scanstring f t).
Proof.
  intros [Hc Hs] Ht. unfold json_escape_char.
  destruct (c =? 92) eqn:E1; [apply Z.eqb_eq in E1; subst; reflexivity|].
  destruct (c =? 34) eqn:E2; [apply Z.eqb_eq in E2; subst; reflexivity|].
  destruct (c =? 8) eqn:E3; [apply Z.eqb_eq in E3; subst; reflexivity|].
  destruct (c =? 12) eqn:E4; [apply Z.eqb_eq in E4; subst; reflexivity|].
  destruct (c =? 10) eqn:E5; [apply Z.eqb_eq in E5; subst; reflexivity|].
  destruct (c =? 13) eqn:E6; [apply Z.eqb_eq in E6; subst; reflexivity|].
  destruct (c =? 9) eqn:E7; [apply Z.eqb_eq in E7; subst; reflexivity|].
  destruct ((32 <=? c) && (c <=? 126)) eqn:E8.
  - apply andb_true_iff in E8 as [E8 _]. apply Z.leb_le in E8.
    cbn [app scanstring]. rewrite E2, E1.
    replace (c <=? 31) with false by (symmetry; apply Z.leb_gt; lia).
    reflexivity.
  - destruct (65536 <=? c) eqn:E9.
    + apply Z.leb_le in E9.
      destruct (surrogate_split c ltac:(lia)) as (B1 & B2 & H1 & H2 & J).
      cbv zeta. set (s1 := Z.lor 55296 _) in *. set (s2 := Z.lor 56320 _) in *.
      unfold u_escape. cbn [app scanstring Z.eqb Pos.eqb].
      rewrite <- app_assoc. cbn [app].
      rewrite length_app, hex4_length.
      replace ((4 + List.length (92%Z :: 117%Z :: hex4 s2 ++ t) <=? 4)%nat) with false
        by (symmetry; apply Nat.leb_gt; simpl; lia).
      rewrite firstn_hex4, hex4_value_hex4 by exact B1. rewrite skipn_hex4.
      unfold surrogate_pair. rewrite H1.
      replace ((6 <? List.length (92%Z :: 117%Z :: hex4 s2 ++ t))%nat) with true
        by (symmetry; apply Nat.ltb_lt; cbn [List.length];
            rewrite length_app, hex4_length; destruct t; [congruence|simpl; lia]).
      cbn [Z.eqb Pos.eqb andb].
      rewrite firstn_hex4, hex4_value_hex4 by exact B2. rewrite H2, skipn_hex4, J.
      reflexivity.
    + apply Z.leb_gt in E9.
      unfold u_escape. cbn [app scanstring Z.eqb Pos.eqb].
      rewrite length_app, hex4_length.
      replace ((4 + List.length t <=? 4)%nat) with false
        by (symmetry; apply Nat.leb_gt; destruct t; [congruence|simpl; lia]).
      rewrite firstn_hex4, hex4_value_hex4 by lia. rewrite skipn_hex4.
      unfold surrogate_pair, is_high_surrogate.
      replace ((55296 <=? c) && (c <=? 56319)) with false
        by (symmetry; apply andb_false_iff;
            destruct (Z_lt_le_dec c 55296); [left; apply Z.leb_gt; lia
                                           |right; apply Z.leb_gt; lia]).
      reflexivity.
Qed.

Lemma json_escape_char_nonempty c : (1 <= List.length (json_escape_char c))%nat.
Proof.
  unfold json_escape_char.
  repeat match goal with |- context [if ?b then _ else _] => destruct b end;
  cbv zeta; rewrite ?length_app; simpl; lia.
Qed.

Lemma flat_map_escape_length s :
  (List.length s <= List.length (flat_map json_escape_char s))%nat.
Proof.
  induction s as [|c s IH]; [simpl; lia|].
  cbn [flat_map]. rewrite length_app. pose proof (json_escape_char_nonempty c).
  simpl. lia.
Qed.

Lemma scanstring_encoded s r f :
  Forall scalar_value s -> (List.length s < f)%nat ->
  scanstring f (flat_map json_escape_char s ++ 34 :: r) = Some (s, r).
Proof.
  revert f. induction s as [|c s IH]; intros f Hs Hf;
    (destruct f as [|f]; [simpl in Hf; lia|]).
  - reflexivity.
  - inversion Hs as [|? ? Hc Hs']; subst.
    cbn [flat_map]. rewrite <- app_assoc.
    rewrite scanstring_escape by (exact Hc || (destruct (flat_map json_escape_char s); discriminate)).
    rewrite IH by (simpl in Hf; lia || exact Hs'). reflexivity.
Qed.

Lemma join_length_ge (sep : text) (parts : list text) :
  Forall (fun p => p <> []) parts -> (List.length parts <= List.length (join sep parts))%nat.
Proof.
  induction 1 as [|p ps Hp Hps IH]; [simpl; lia|].
  destruct ps as [|q qs].
  - simpl. destruct p; [congruence|simpl; lia].
  - change (join sep (p :: q :: qs)) with (p ++ sep ++ join sep (q :: qs)).
    rewrite !length_app. destruct p; [congruence|]. simpl in *. lia.
Qed.

Lemma parse_array_items_encoded s ss r fuel :
  Forall (Forall scalar_value) (s :: ss) -> (List.length (s :: ss) <= fuel)%nat ->
  parse_array_items fuel
    (join (str ", ") (map json_encode_string (s :: ss)) ++ 93 :: r) = Some (s :: ss, r).
Proof.
  revert s fuel. induction ss as [|s' ss IH]; intros s fuel Hall Hf;
    (destruct fuel as [|fuel]; [simpl in Hf; lia|]);
    inversion Hall as [|? ? Hs Hrest]; subst.
  - cbn [map join]. unfold json_encode_string.
    cbn [app]. rewrite <- !app_assoc. cbn [app parse_array_items Z.eqb Pos.eqb].
    rewrite scanstring_encoded; [reflexivity|exact Hs|].
    rewrite length_app. pose proof (flat_map_escape_length s). simpl. lia.
  - cbn [map]. change (join (str ", ") (json_encode_string s :: json_encode_string s' ::
                                         map json_encode_string ss))
      with (json_encode_string s ++ str ", " ++
            join (str ", ") (map json_encode_string (s' :: ss))).
    unfold json_encode_string at 1.
    cbn [app]. rewrite <- !app_assoc. cbn [app parse_array_items Z.eqb Pos.eqb].
    rewrite scanstring_encoded; [|exact Hs|].
    2: { rewrite length_app. pose proof (flat_map_escape_length s). simpl. lia. }
    assert (Hj : exists x, join (str ", ") (map json_encode_string (s' :: ss)) ++ 93 :: r =
                           34 :: x).
    { destruct ss as [|s'' ss'].
      - eexists. unfold json_encode_string. simpl. reflexivity.
      - eexists. cbn [map join]. unfold json_encode_string at 1. simpl. reflexivity. }
    destruct Hj as [x Hx]. rewrite Hx.
    change (str ", " ++ 34 :: x) with (44 :: 32 :: 34 :: x).
    cbn [skip_ws is_json_ws Z.eqb Pos.eqb orb].
    rewrite <- Hx. rewrite IH; [reflexivity|exact Hrest|simpl in Hf |- *; lia].
Qed.

Lemma skip_ws_dumps l : skip_ws (json_dumps_strs l) = json_dumps_strs l.
Proof. reflexivity. Qed.

Lemma json_loads_dumps_strs (l : list text) :
  Forall (Forall scalar_value) l -> json_loads_strs (json_dumps_strs l) = Some l.
Proof.
  intros Hl. destruct l as [|s ss]; [reflexivity|].
  unfold json_loads_strs. rewrite skip_ws_dumps. unfold json_dumps_strs.
  cbn [Z.eqb Pos.eqb].
  assert (Hx : exists x, join (str ", ") (map json_encode_string (s :: ss)) ++ [93] =
                         34 :: x).
  { destruct ss as [|s' ss'].
    - eexists. unfold json_encode_string. simpl. reflexivity.
    - eexists. cbn [map join]. unfold json_encode_string at 1. simpl. reflexivity. }
  destruct Hx as [x Hx]. rewrite Hx. cbn [skip_ws is_json_ws Z.eqb Pos.eqb orb].
  rewrite <- Hx. rewrite parse_array_items_encoded; [reflexivity|exact Hl|].
  rewrite length_app. pose proof (join_length_ge (str ", ") (map json_encode_string (s :: ss))) as J.
  rewrite length_map in J.
  assert (Hne : Forall (fun p => p <> []) (map json_encode_string (s :: ss))).
  { apply Forall_map, Forall_forall. intros y _. unfold json_encode_string. discriminate. }
  specialize (J Hne). change (List.length [93]) with 1%nat.
  eapply Nat.le_trans; [exact J|apply Nat.le_add_r].
Qed.

(** [json.loads(json.dumps(l)) == l] for every list of strings made of
    Unicode scalar values. *)
Theorem json_strs_round_trip (l : list text) :
  Forall (Forall scalar_value) l -> json_loads_strs (json_dumps_strs l) = Some l.
Proof. exact (json_loads_dumps_strs l). Qed.




Lemma fold_max_ge (ids : list Z) x : In x ids -> x <= fold_right Z.max 0 ids.
Proof.
  induction ids as [|y ids IH]; [intros []|]. simpl. intros [<-|H]; [lia|].
  specialize (IH H). lia.
Qed.

Lemma next_rowid_fresh seq ids :
  seq < next_rowid seq ids /\ 0 < next_rowid seq ids /\
  forall x, In x ids -> x < next_rowid seq ids.
Proof.
  unfold next_rowid.
  assert (0 <= fold_right Z.max 0 ids)
    by (induction ids as [|y ids IH]; simpl; lia).
  split; [lia|]. split; [lia|]. intros x Hx. apply fold_max_ge in Hx. lia.
Qed.





Lemma NoDup_app_fresh (ids : list Z) id :
  NoDup ids -> (forall x, In x ids -> x < id) -> NoDup (ids ++ [id]).
Proof.
  intros Hn Hf. apply NoDup_app; [exact Hn|constructor; [intros []|constructor]|].
  intros x Hx [E|[]]. subst x. specialize (Hf id Hx). lia.
Qed.

Lemma map_update_ids (f : result_row -> result_row) (l : list result_row) :
  (forall r, sr_id (f r) = sr_id r) -> map sr_id (map f l) = map sr_id l.
Proof. intros H. rewrite map_map. apply map_ext, H. Qed.

(** Row ids stay unique: each successful insert appends one row under an
    id above every id the table holds and above its sequence, leaving the
    rows before it and the other table as they were; feedback and
    [create_tables] keep the ids. *)
Theorem db_ids_fresh_and_unique (db : Db) :
  NoDup (map rr_id (db_resumes db)) -> NoDup (map sr_id (db_results db)) ->
  (forall filename parsed_data id,
     fst (insert_resume filename parsed_data db) = Some id ->
     let db' := snd (insert_resume filename parsed_data db) in
     db_resumes_seq db < id /\ (forall x, In x (map rr_id (db_resumes db)) -> x < id) /\
     (exists row, db_resumes db' = db_resumes db ++ [row] /\ rr_id row = id) /\
     db_results db' = db_results db /\
     NoDup (map rr_id (db_resumes db'))) /\
  (forall resume_id jd score reasoning jd_id id,
     fst (insert_screening_result resume_id jd score reasoning jd_id db) = Some id ->
     let db' := snd (insert_screening_result resume_id jd score reasoning jd_id db) in
     db_results_seq db < id /\ (forall x, In x (map sr_id (db_results db)) -> x < id) /\
     (exists row, db_results db' = db_results db ++ [row] /\ sr_id row = id) /\
     db_resumes db' = db_resumes db /\
     NoDup (map sr_id (db_results db'))) /\
  (forall result_id hs hc,
     let db' := snd (update_screening_feedback result_id hs hc db) in
     map rr_id (db_resumes db') = map rr_id (db_resumes db) /\
     map sr_id (db_results db') = map sr_id (db_results db)) /\
  (db_resumes (create_tables db) = db_resumes db /\
   db_results (create_tables db) = db_results db).
Proof.
  intros Hr Hs. split; [|split; [|split]].
  - intros fn p id. unfold insert_resume.
    destruct (db_writable db); [|discriminate]. cbn [fst snd]. intros [= <-].
    destruct (next_rowid_fresh (db_resumes_seq db) (map rr_id (db_resumes db)))
      as (H1 & _ & H2).
    cbn [db_resumes db_results]. split; [exact H1|]. split; [exact H2|].
    split; [eexists; split; reflexivity|]. split; [reflexivity|].
    rewrite map_app. apply NoDup_app_fresh; assumption.
  - intros rid jd sc why jid id. unfold insert_screening_result.
    destruct (db_writable db); [|discriminate]. cbn [fst snd]. intros [= <-].
    destruct (next_rowid_fresh (db_results_seq db) (map sr_id (db_results db)))
      as (H1 & _ & H2).
    cbn [db_resumes db_results]. split; [exact H1|]. split; [exact H2|].
    split; [eexists; split; reflexivity|]. split; [reflexivity|].
    rewrite map_app. apply NoDup_app_fresh; assumption.
  - intros rid hs hc. unfold update_screening_feedback.
    destruct (db_writable db); [|split; reflexivity]. cbn [snd db_resumes db_results].
    split; [reflexivity|]. apply map_update_ids.
    intros r. destruct (sr_id r =? rid); reflexivity.
  - unfold create_tables. destruct (db_connectable db); split; reflexivity.
Qed.






Lemma insert_by_score_perm x l : Permutation (insert_by_score x l) (x :: l).
Proof.
  induction l as [|y l IH]; simpl; [reflexivity|].
  destruct (Qle_bool (cand_score x) (cand_score y)); [|reflexivity].
  rewrite IH. apply perm_swap.
Qed.

Lemma sort_by_score_desc_perm l : Permutation (sort_by_score_desc l) l.
Proof.
  unfold sort_by_score_desc.
  assert (H : forall acc, Permutation (fold_left (fun acc x => insert_by_score x acc) l acc)
                                      (l ++ acc)).
  { induction l as [|x l IH]; intros acc; simpl; [reflexivity|].
    rewrite IH, insert_by_score_perm. symmetry. apply Permutation_middle. }
  rewrite H, app_nil_r. reflexivity.
Qed.

Lemma insert_by_score_sorted x l :
  Sorted score_desc l -> Sorted score_desc (insert_by_score x l).
Proof.
  unfold score_desc.
  induction l as [|y l IH]; intros H; simpl; [repeat constructor|].
  destruct (Qle_bool (cand_score x) (cand_score y)) eqn:E.
  - apply Qle_bool_iff in E.
    apply Sorted_inv in H as [Hs Hh]. constructor; [exact (IH Hs)|].
    destruct l as [|z l]; simpl; [constructor; exact E|].
    destruct (Qle_bool (cand_score x) (cand_score z)); constructor; [|exact E].
    inversion Hh; assumption.
  - assert (~ (cand_score x <= cand_score y)%Q)
      by (intro C; apply Qle_bool_iff in C; congruence).
    constructor; [exact H|]. constructor. lra.
Qed.

Lemma sort_by_score_desc_sorted l : StronglySorted score_desc (sort_by_score_desc l).
Proof.
  apply Sorted_StronglySorted; [unfold score_desc; intros a b c H1 H2; lra|].
  unfold sort_by_score_desc.
  assert (H : forall acc, Sorted score_desc acc ->
    Sorted score_desc (fold_left (fun acc x => insert_by_score x acc) l acc)).
  { induction l as [|x l IH]; intros acc Hacc; simpl; [exact Hacc|].
    apply IH, insert_by_score_sorted, Hacc. }
  apply H. constructor.
Qed.


Lemma process_files_filenames sf ex ne sl cs jd db fs :
  map cand_filename (fst (process_files sf ex ne sl cs jd db fs)) =
  map (fun f => sf (up_filename f)) (filter named_upload fs).
Proof.
  revert db. induction fs as [|f fs IH]; intros db; [reflexivity|].
  cbn [process_files filter]. unfold named_upload at 1.
  destruct (up_filename f) as [|c cs'] eqn:E; [apply IH|].
  destruct (process_file sf ex ne sl cs jd db f) as [c0 db1] eqn:P.
  destruct (process_files sf ex ne sl cs jd db1 fs) as [l db2] eqn:Q.
  cbn [fst map]. f_equal.
  - rewrite E. unfold process_file in P. rewrite E in P.
    destruct (ex (sf (c :: cs')) (up_bytes f)) as [|t0 ts];
      [injection P as <- _; reflexivity|].
    destruct (insert_resume _ _ db) as [[id|] d1];
      [destruct (id =? 0); [|destruct (score_resume _ _ _)]|];
      injection P as <- _; reflexivity.
  - specialize (IH db1). rewrite Q in IH. exact IH.
Qed.

(** The endpoint answers 400 exactly when the job description is missing,
    the [resume_files] part is missing, or no uploaded file has a name; a
    400 leaves the database untouched. *)
Theorem endpoint_bad_request sf ex ne sl cs (req : request) (db : Db) :
  ((exists e, fst (screen_resumes_endpoint sf ex ne sl cs req db) = BadRequest e) <->
   (form_job_description req = None \/ files_resume_files req = None \/
    exists fs, files_resume_files req = Some fs /\ Forall (fun f => up_filename f = []) fs)) /\
  (forall e, fst (screen_resumes_endpoint sf ex ne sl cs req db) = BadRequest e ->
   snd (screen_resumes_endpoint sf ex ne sl cs req db) = db).
Proof.
  unfold screen_resumes_endpoint.
  destruct (form_job_description req) as [jd|];
    [|split; [split; [intros _; left; reflexivity|intros _; eexists; reflexivity]
             |intros e _; reflexivity]].
  destruct (files_resume_files req) as [fs|];
    [|split; [split; [intros _; right; left; reflexivity|intros _; eexists; reflexivity]
             |intros e _; reflexivity]].
  assert (Hiff : ((match fs with [] => true | _ => false end) ||
                  forallb (fun f => match up_filename f with [] => true | _ => false end) fs)
                 = true <-> Forall (fun f => up_filename f = []) fs).
  { rewrite orb_true_iff, forallb_forall, Forall_forall.
    split.
    - intros [H|H] f Hf; [destruct fs; [destruct Hf|discriminate]|].
      specialize (H f Hf). destruct (up_filename f); [reflexivity|discriminate].
    - intros H. right. intros f Hf. rewrite (H f Hf). reflexivity. }
  destruct ((match fs with [] => true | _ => false end) ||
            forallb (fun f => match up_filename f with [] => true | _ => false end) fs) eqn:B.
  - split; [|intros e _; reflexivity].
    split; [intros _; right; right; exists fs; split; [reflexivity|apply Hiff; reflexivity]
           |intros _; eexists; reflexivity].
  - destruct (process_files sf ex ne sl cs jd db fs) as [p db'].
    split; [|intros e H; discriminate H].
    split; [intros [e H]; discriminate H|].
    intros [H|[H|(fs' & [= <-] & H)]]; try discriminate.
    apply Hiff in H. congruence.
Qed.

(** A successful answer lists one entry per uploaded file with a name, under
    its [secure_filename], highest score first. *)
Theorem endpoint_success_sorted sf ex ne sl cs (req : request) (db : Db) candidates :
  fst (screen_resumes_endpoint sf ex ne sl cs req db) = ScreenSuccess candidates ->
  exists jd fs,
    form_job_description req = Some jd /\ files_resume_files req = Some fs /\
    StronglySorted score_desc candidates /\
    Permutation candidates (fst (process_files sf ex ne sl cs jd db fs)) /\
    Permutation (map cand_filename candidates)
                (map (fun f => sf (up_filename f)) (filter named_upload fs)).
Proof.
  unfold screen_resumes_endpoint.
  destruct (form_job_description req) as [jd|]; [|discriminate].
  destruct (files_resume_files req) as [fs|]; [|discriminate].
  destruct (_ || _); [discriminate|].
  destruct (process_files sf ex ne sl cs jd db fs) as [p db'] eqn:P.
  cbn [fst]. intros [= <-]. exists jd, fs.
  split; [reflexivity|]. split; [reflexivity|]. split; [apply sort_by_score_desc_sorted|].
  split; [rewrite P; apply sort_by_score_desc_perm|].
  rewrite <- (process_files_filenames sf ex ne sl cs jd db fs), P. cbn [fst].
  apply Permutation_map, sort_by_score_desc_perm.
Qed.




Lemma process_file_unwritable sf ex ne sl cs jd db f :
  db_writable db = false ->
  snd (process_file sf ex ne sl cs jd db f) = db /\
  cand_id (fst (process_file sf ex ne sl cs jd db f)) = None /\
  cand_score (fst (process_file sf ex ne sl cs jd db f)) = round2 0.
Proof.
  intros Hw. unfold process_file. cbv zeta.
  destruct (ex (sf (up_filename f)) (up_bytes f)) as [|c t]; [split; [|split]; reflexivity|].
  unfold insert_resume. rewrite Hw. cbn [fst snd cand_id cand_score].
  split; [|split]; reflexivity.
Qed.

Lemma process_file_empty sf ex ne sl cs jd db f :
  ex (sf (up_filename f)) (up_bytes f) = [] ->
  process_file sf ex ne sl cs jd db f =
  ({| cand_id := None; cand_filename := sf (up_filename f);
      cand_name := Some (str "N/A"); cand_score := round2 0;
      cand_reasoning := value_error_reasoning; cand_extracted_skills := [] |}, db).
Proof. intros E. unfold process_file. cbv zeta. rewrite E. reflexivity. Qed.

Lemma process_file_written sf ex ne sl cs jd db f :
  let raw := ex (sf (up_filename f)) (up_bytes f) in
  let parsed := parse_resume_info (ne raw) sl raw in
  raw <> [] -> db_writable db = true ->
  let res := process_file sf ex ne sl cs jd db f in
  exists id,
    cand_id (fst res) = Some id /\
    cand_filename (fst res) = sf (up_filename f) /\
    cand_name (fst res) = name parsed /\
    cand_extracted_skills (fst res) = skills parsed /\
    cand_score (fst res) = round2 (fst (score_resume cs parsed jd)) /\
    cand_reasoning (fst res) = snd (score_resume cs parsed jd) /\
    (forall x, In x (map rr_id (db_resumes db)) -> x < id) /\
    (exists rrow, db_resumes (snd res) = db_resumes db ++ [rrow] /\
                  rr_id rrow = id /\ rr_filename rrow = sf (up_filename f)) /\
    (exists srow, db_results (snd res) = db_results db ++ [srow] /\
                  sr_resume_id srow = id /\ sr_job_description_text srow = jd /\
                  sr_ai_score srow = fst (score_resume cs parsed jd) /\
                  sr_ai_reasoning srow = snd (score_resume cs parsed jd)) /\
    db_writable (snd res) = true.
Proof.
  cbv zeta. intros Hraw Hw. unfold process_file. cbv zeta.
  destruct (ex (sf (up_filename f)) (up_bytes f)) as [|c t]; [congruence|].
  unfold insert_resume. rewrite Hw.
  set (parsed := parse_resume_info (ne (c :: t)) sl (c :: t)).
  set (id := next_rowid (db_resumes_seq db) (map rr_id (db_resumes db))).
  destruct (next_rowid_fresh (db_resumes_seq db) (map rr_id (db_resumes db)))
    as (_ & Hpos & Hfresh). fold id in Hpos, Hfresh.
  replace (id =? 0) with false by (symmetry; apply Z.eqb_neq; lia).
  destruct (score_resume cs parsed jd) as [s r] eqn:S.
  unfold insert_screening_result, db_writable. cbn [db_connectable db_has_tables].
  unfold db_writable in Hw. rewrite Hw. cbn [fst snd].
  exists id. cbn [cand_id cand_filename cand_name cand_extracted_skills cand_score
                  cand_reasoning db_resumes db_results db_connectable db_has_tables].
  split; [reflexivity|]. split; [reflexivity|]. split; [reflexivity|].
  split; [reflexivity|]. split; [reflexivity|]. split; [reflexivity|].
  split; [exact Hfresh|].
  split; [eexists; split; [reflexivity|split; reflexivity]|].
  split; [eexists; split; [reflexivity|repeat split]|exact Hw].
Qed.


Lemma process_files_unwritable sf ex ne sl cs jd db fs :
  db_writable db = false ->
  snd (process_files sf ex ne sl cs jd db fs) = db /\
  Forall (fun c => cand_id c = None /\ cand_score c = round2 0)
         (fst (process_files sf ex ne sl cs jd db fs)).
Proof.
  intros Hw. induction fs as [|f fs IH]; [split; [reflexivity|constructor]|].
  cbn [process_files]. destruct (up_filename f) as [|x xs]; [exact IH|].
  destruct (process_file_unwritable sf ex ne sl cs jd db f Hw) as (H1 & H2 & H3).
  destruct (process_file sf ex ne sl cs jd db f) as [c db1]. cbn [fst snd] in *. subst db1.
  destruct (process_files sf ex ne sl cs jd db fs) as [l db2]. cbn [fst snd] in *.
  destruct IH as [IH1 IH2]. split; [exact IH1|]. constructor; [split; assumption|exact IH2].
Qed.

Lemma process_file_refs sf ex ne sl cs jd db f :
  results_reference_resumes db ->
  results_reference_resumes (snd (process_file sf ex ne sl cs jd db f)).
Proof.
  intros H.
  destruct (ex (sf (up_filename f)) (up_bytes f)) as [|c t] eqn:E.
  { rewrite (process_file_empty sf ex ne sl cs jd db f E). exact H. }
  destruct (db_writable db) eqn:Hw.
  - assert (Hne : ex (sf (up_filename f)) (up_bytes f) <> []) by (rewrite E; discriminate).
    destruct (process_file_written sf ex ne sl cs jd db f Hne Hw)
      as (id & _ & _ & _ & _ & _ & _ & _ & (rrow & R1 & R2 & _) & (srow & S1 & S2 & _) & _).
    unfold results_reference_resumes in *. rewrite R1, S1, map_app.
    apply Forall_app. split.
    + eapply Forall_impl; [|exact H]. intros r Hr. apply in_or_app. left. exact Hr.
    + constructor; [|constructor]. rewrite S2. apply in_or_app. right. left. exact R2.
  - rewrite (proj1 (process_file_unwritable sf ex ne sl cs jd db f Hw)). exact H.
Qed.

Lemma process_files_refs sf ex ne sl cs jd db fs :
  results_reference_resumes db ->
  results_reference_resumes (snd (process_files sf ex ne sl cs jd db fs)).
Proof.
  revert db. induction fs as [|f fs IH]; intros db H; [exact H|].
  cbn [process_files]. destruct (up_filename f) as [|x xs]; [exact (IH db H)|].
  pose proof (process_file_refs sf ex ne sl cs jd db f H) as H1.
  destruct (process_file sf ex ne sl cs jd db f) as [c db1]. cbn [snd] in H1.
  specialize (IH db1 H1).
  destruct (process_files sf ex ne sl cs jd db1 fs) as [l db2]. exact IH.
Qed.

(** One file the endpoint could not take to the scorer: when no text comes
    out of it, or the database cannot be written, its entry has no id and
    score 0, the database is left as it was, and the reasoning names the
    failure. Without text the name is "N/A" and no skills are listed; with
    text the parsed name (possibly [null]) and skills are kept. *)
Theorem process_file_failures sf ex ne sl cs (job_description : text) (db : Db) (f : upload) :
  let raw := ex (sf (up_filename f)) (up_bytes f) in
  let parsed := parse_resume_info (ne raw) sl raw in
  raw = [] \/ db_writable db = false ->
  let res := process_file sf ex ne sl cs job_description db f in
  snd res = db /\ cand_id (fst res) = None /\ (cand_score (fst res) == 0)%Q /\
  cand_filename (fst res) = sf (up_filename f) /\
  ((raw = [] /\ cand_name (fst res) = Some (str "N/A") /\
    cand_extracted_skills (fst res) = [] /\
    cand_reasoning (fst res) = value_error_reasoning) \/
   (raw <> [] /\ cand_name (fst res) = name parsed /\
    cand_extracted_skills (fst res) = skills parsed /\
    cand_reasoning (fst res) = db_error_reasoning)).
Proof.
  cbv zeta. intros H.
  destruct (ex (sf (up_filename f)) (up_bytes f)) as [|c t] eqn:E.
  - rewrite (process_file_empty sf ex ne sl cs job_description db f E). cbn.
    split; [reflexivity|]. split; [reflexivity|]. split; [reflexivity|].
    split; [reflexivity|]. left. repeat split.
  - destruct H as [H|Hw]; [discriminate|].
    unfold process_file. cbv zeta. rewrite E. unfold insert_resume. rewrite Hw. cbn.
    split; [reflexivity|]. split; [reflexivity|]. split; [reflexivity|].
    split; [reflexivity|]. right. repeat split. discriminate.
Qed.


(** With a database that cannot be written the endpoint changes nothing in
    it, and every candidate it returns has no id and score 0. *)
Theorem endpoint_db_unavailable sf ex ne sl cs (req : request) (db : Db) :
  db_writable db = false ->
  snd (screen_resumes_endpoint sf ex ne sl cs req db) = db /\
  forall candidates,
    fst (screen_resumes_endpoint sf ex ne sl cs req db) = ScreenSuccess candidates ->
    Forall (fun c => cand_id c = None /\ (cand_score c == 0)%Q) candidates.
Proof.
  intros Hw. unfold screen_resumes_endpoint.
  destruct (form_job_description req) as [jd|]; [|split; [reflexivity|discriminate]].
  destruct (files_resume_files req) as [fs|]; [|split; [reflexivity|discriminate]].
  destruct (_ || _); [split; [reflexivity|discriminate]|].
  destruct (process_files_unwritable sf ex ne sl cs jd db fs Hw) as [H1 H2].
  destruct (process_files sf ex ne sl cs jd db fs) as [p db'] eqn:P.
  cbn [fst snd] in *. split; [exact H1|]. intros cands [= <-].
  apply Forall_forall. intros c Hc.
  apply (Permutation_in _ (sort_by_score_desc_perm p)) in Hc.
  rewrite Forall_forall in H2. destruct (H2 c Hc) as [-> ->]. split; reflexivity.
Qed.

(** Every screening result the endpoint stores points to a resume row
    that exists: the invariant survives a whole request. *)
Theorem endpoint_results_reference_resumes sf ex ne sl cs (req : request) (db : Db) :
  results_reference_resumes db ->
  results_reference_resumes (snd (screen_resumes_endpoint sf ex ne sl cs req db)).
Proof.
  intros H. unfold screen_resumes_endpoint.
  destruct (form_job_description req) as [jd|]; [|exact H].
  destruct (files_resume_files req) as [fs|]; [|exact H].
  destruct (_ || _); [exact H|].
  pose proof (process_files_refs sf ex ne sl cs jd db fs H) as H1.
  destruct (process_files sf ex ne sl cs jd db fs) as [p db']. exact H1.
Qed.

(* ================================================================== *)
(** ** Witnesses: the properties above at concrete inputs *)

Lemma parse_email_shape_witness :
  email (parse_resume_info [] ex_vocab ex_resume) = Some (str "jane@example.com") /\
  contains (str "jane@example.com") ex_resume = true /\
  exists l d1 d2, str "jane@example.com" = l ++ 64 :: d1 ++ 46 :: d2 /\
    l <> [] /\ d1 <> [] /\ (2 <= List.length d2)%nat /\
    Forall (fun c => email_local c = true) l /\
    Forall (fun c => email_domain c = true) d1 /\
    Forall (fun c => is_alpha c = true) d2.
Proof.
  assert (H : email (parse_resume_info [] ex_vocab ex_resume) = Some (str "jane@example.com"))
    by (vm_compute; reflexivity).
  split; [exact H|]. exact (parse_email_shape [] ex_vocab ex_resume _ H).
Defined.


Lemma parse_name_source_witness :
  name (parse_resume_info [] ex_vocab ex_resume_phone) = Some (str "John Smith") /\
  ((exists e, In e [] /\ is_person e = true /\
     str "John Smith" = slice ex_resume_phone (ent_start e) (ent_end e) /\
     (2 <= List.length (words (str "John Smith")))%nat)
  \/
  ((forall e, In e [] -> is_person e = true ->
      (List.length (words (slice ex_resume_phone (ent_start e) (ent_end e))) < 2)%nat) /\
   In (str "John Smith") (firstn 3 (filter (fun l => negb (Nat.eqb (List.length l) 0))
                          (map strip (split_on (Z.eqb c_nl) ex_resume_phone)))) /\
   ~ In 64 (str "John Smith") /\ (List.length (words (str "John Smith")) < 5)%nat /\
   str "John Smith" <> [] /\ strip (str "John Smith") = str "John Smith")).
Proof.
  assert (H : name (parse_resume_info [] ex_vocab ex_resume_phone) = Some (str "John Smith"))
    by (vm_compute; reflexivity).
  split; [exact H|]. exact (parse_name_source [] ex_vocab ex_resume_phone _ H).
Defined.


Lemma parse_skills_case_insensitive_witness :
  lower ex_resume = lower (lower ex_resume) /\
  skills (parse_resume_info [] ex_vocab ex_resume) =
    skills (parse_resume_info [] ex_vocab (lower ex_resume)) /\
  NoDup (skills (parse_resume_info [] ex_vocab ex_resume)).
Proof.
  assert (H : lower ex_resume = lower (lower ex_resume)) by (vm_compute; reflexivity).
  split; [exact H|]. exact (parse_skills_case_insensitive [] [] ex_vocab _ _ H).
Defined.

Lemma score_resume_range_witness :
  (forall a b, (-1 <= ex_cos_sim a b <= 1)%Q) /\
  (-20 <= fst (score_resume ex_cos_sim ex_cand ex_jd) <= 100)%Q /\
  ((forall a b, (0 <= ex_cos_sim a b)%Q) ->
   (0 <= fst (score_resume ex_cos_sim ex_cand ex_jd) <= 100)%Q).
Proof.
  assert (H : forall a b, (-1 <= ex_cos_sim a b <= 1)%Q)
    by (intros a b; unfold ex_cos_sim; destruct (text_eqb a b); decide_q).
  split; [exact H|]. exact (score_resume_range ex_cos_sim ex_cand ex_jd H).
Defined.

Lemma score_resume_monotone_witness :
  ((forall a b, ((fun _ _ => 0%Q) a b <= ex_cos_sim a b)%Q) /\
   incl (skills ex_cand_noskills) (skills ex_cand) /\
   experience ex_cand_noskills = experience ex_cand /\
   education ex_cand_noskills = education ex_cand /\
   raw_text ex_cand_noskills = raw_text ex_cand) /\
  (fst (score_resume (fun _ _ => 0%Q) ex_cand_noskills ex_jd) <=
   fst (score_resume ex_cos_sim ex_cand ex_jd))%Q.
Proof.
  assert (H1 : forall a b, ((fun _ _ => 0%Q) a b <= ex_cos_sim a b)%Q)
    by (intros a b; unfold ex_cos_sim; destruct (text_eqb a b); decide_q).
  assert (H2 : incl (skills ex_cand_noskills) (skills ex_cand)) by apply incl_nil_l.
  split; [repeat split; [exact H1 | exact H2]|].
  exact (score_resume_monotone (fun _ _ => 0%Q) ex_cos_sim ex_cand_noskills ex_cand ex_jd
           H1 H2 eq_refl eq_refl eq_refl).
Defined.

Lemma score_resume_jd_case_insensitive_witness :
  lower ex_jd = lower (lower ex_jd) /\
  score_resume ex_cos_sim ex_cand ex_jd = score_resume ex_cos_sim ex_cand (lower ex_jd).
Proof.
  assert (H : lower ex_jd = lower (lower ex_jd)) by (vm_compute; reflexivity).
  split; [exact H|]. exact (score_resume_jd_case_insensitive ex_cos_sim ex_cand _ _ H).
Defined.

Lemma score_resume_ignores_contact_witness :
  (skills ex_cand = skills ex_cand_anon /\ experience ex_cand = experience ex_cand_anon /\
   education ex_cand = education ex_cand_anon /\ raw_text ex_cand = raw_text ex_cand_anon) /\
  score_resume ex_cos_sim ex_cand ex_jd = score_resume ex_cos_sim ex_cand_anon ex_jd.
Proof.
  split; [repeat split|].
  exact (score_resume_ignores_contact ex_cos_sim ex_cand ex_cand_anon ex_jd
           eq_refl eq_refl eq_refl eq_refl).
Defined.

Lemma score_resume_no_requirements_witness :
  (req_skills (_extract_jd_requirements ex_jd_empty) = [] /\
   req_responsibilities (_extract_jd_requirements ex_jd_empty) = [] /\
   req_experience_years (_extract_jd_requirements ex_jd_empty) = 0%Z /\
   req_education (_extract_jd_requirements ex_jd_empty) = []) /\
  (fst (score_resume ex_cos_sim ex_cand ex_jd_empty) == 90)%Q /\
  snd (score_resume ex_cos_sim ex_cand ex_jd_empty) =
    str "No specific skills required in JD. No minimum experience required in JD. Cannot assess responsibilities due to missing JD or resume content. No specific education required in JD.".
Proof.
  assert (H1 : req_skills (_extract_jd_requirements ex_jd_empty) = []) by (vm_compute; reflexivity).
  assert (H2 : req_responsibilities (_extract_jd_requirements ex_jd_empty) = [])
    by (vm_compute; reflexivity).
  assert (H3 : req_experience_years (_extract_jd_requirements ex_jd_empty) = 0%Z)
    by (vm_compute; reflexivity).
  assert (H4 : req_education (_extract_jd_requirements ex_jd_empty) = []) by (vm_compute; reflexivity).
  split; [repeat split; assumption|].
  exact (score_resume_no_requirements ex_cos_sim ex_cand ex_jd_empty H1 H2 H3 H4).
Defined.

Lemma json_strs_round_trip_witness :
  Forall (Forall scalar_value) [str "python"; [233]; [128512; 34; 92; 10]] /\
  json_loads_strs (json_dumps_strs [str "python"; [233]; [128512; 34; 92; 10]]) =
    Some [str "python"; [233]; [128512; 34; 92; 10]].
Proof.
  assert (H : Forall (Forall scalar_value) [str "python"; [233]; [128512; 34; 92; 10]])
    by (unfold scalar_value; repeat (first [apply Forall_nil | apply Forall_cons | split | simpl; lia])).
  split; [exact H|]. exact (json_strs_round_trip _ H).
Defined.



Lemma db_ids_fresh_and_unique_witness :
  (NoDup (map rr_id (db_resumes ex_db1)) /\ NoDup (map sr_id (db_results ex_db1))) /\
  (forall filename parsed_data id,
     fst (insert_resume filename parsed_data ex_db1) = Some id ->
     let db' := snd (insert_resume filename parsed_data ex_db1) in
     db_resumes_seq ex_db1 < id /\ (forall x, In x (map rr_id (db_resumes ex_db1)) -> x < id) /\
     (exists row, db_resumes db' = db_resumes ex_db1 ++ [row] /\ rr_id row = id) /\
     db_results db' = db_results ex_db1 /\
     NoDup (map rr_id (db_resumes db'))) /\
  (forall resume_id jd score reasoning jd_id id,
     fst (insert_screening_result resume_id jd score reasoning jd_id ex_db1) = Some id ->
     let db' := snd (insert_screening_result resume_id jd score reasoning jd_id ex_db1) in
     db_results_seq ex_db1 < id /\ (forall x, In x (map sr_id (db_results ex_db1)) -> x < id) /\
     (exists row, db_results db' = db_results ex_db1 ++ [row] /\ sr_id row = id) /\
     db_resumes db' = db_resumes ex_db1 /\
     NoDup (map sr_id (db_results db'))) /\
  (forall result_id hs hc,
     let db' := snd (update_screening_feedback result_id hs hc ex_db1) in
     map rr_id (db_resumes db') = map rr_id (db_resumes ex_db1) /\
     map sr_id (db_results db') = map sr_id (db_results ex_db1)) /\
  (db_resumes (create_tables ex_db1) = db_resumes ex_db1 /\
   db_results (create_tables ex_db1) = db_results ex_db1).
Proof.
  assert (H1 : NoDup (map rr_id (db_resumes ex_db1)))
    by (vm_compute; repeat constructor; intros []).
  assert (H2 : NoDup (map sr_id (db_results ex_db1)))
    by (vm_compute; repeat constructor; intros []).
  split; [split; [exact H1 | exact H2]|]. exact (db_ids_fresh_and_unique ex_db1 H1 H2).
Defined.


Lemma endpoint_success_sorted_witness :
  fst (screen_resumes_endpoint ex_secure_filename ex_extract ex_ents ex_vocab ex_cos_sim
         ex_request ex_db) =
    ScreenSuccess (sort_by_score_desc
      (fst (process_files ex_secure_filename ex_extract ex_ents ex_vocab ex_cos_sim ex_jd ex_db
              [ex_upload_empty; ex_upload; ex_upload_blank]))) /\
  exists jd fs,
    form_job_description ex_request = Some jd /\ files_resume_files ex_request = Some fs /\
    StronglySorted score_desc (sort_by_score_desc
      (fst (process_files ex_secure_filename ex_extract ex_ents ex_vocab ex_cos_sim ex_jd ex_db
              [ex_upload_empty; ex_upload; ex_upload_blank]))) /\
    Permutation (sort_by_score_desc
      (fst (process_files ex_secure_filename ex_extract ex_ents ex_vocab ex_cos_sim ex_jd ex_db
              [ex_upload_empty; ex_upload; ex_upload_blank])))
      (fst (process_files ex_secure_filename ex_extract ex_ents ex_vocab ex_cos_sim jd ex_db fs)) /\
    Permutation (map cand_filename (sort_by_score_desc
      (fst (process_files ex_secure_filename ex_extract ex_ents ex_vocab ex_cos_sim ex_jd ex_db
              [ex_upload_empty; ex_upload; ex_upload_blank]))))
      (map (fun f => ex_secure_filename (up_filename f)) (filter named_upload fs)).
Proof.
  assert (H : fst (screen_resumes_endpoint ex_secure_filename ex_extract ex_ents ex_vocab
                     ex_cos_sim ex_request ex_db) =
    ScreenSuccess (sort_by_score_desc
      (fst (process_files ex_secure_filename ex_extract ex_ents ex_vocab ex_cos_sim ex_jd ex_db
              [ex_upload_empty; ex_upload; ex_upload_blank])))) by (vm_compute; reflexivity).
  split; [exact H|].
  exact (endpoint_success_sorted ex_secure_filename ex_extract ex_ents ex_vocab ex_cos_sim
           ex_request ex_db _ H).
Defined.

Lemma process_file_failures_witness :
  ex_extract (ex_secure_filename (up_filename ex_upload_empty)) (up_bytes ex_upload_empty) = [] /\
  let res := process_file ex_secure_filename ex_extract ex_ents ex_vocab ex_cos_sim
               ex_jd ex_db ex_upload_empty in
  snd res = ex_db /\ cand_id (fst res) = None /\ (cand_score (fst res) == 0)%Q /\
  cand_filename (fst res) = str "empty.txt" /\
  cand_name (fst res) = Some (str "N/A") /\ cand_reasoning (fst res) = value_error_reasoning.
Proof.
  assert (H : ex_extract (ex_secure_filename (up_filename ex_upload_empty))
                (up_bytes ex_upload_empty) = []) by reflexivity.
  split; [exact H|].
  destruct (process_file_failures ex_secure_filename ex_extract ex_ents ex_vocab ex_cos_sim
              ex_jd ex_db ex_upload_empty (or_introl H))
    as (H1 & H2 & H3 & H4 & [(_ & H5 & _ & H6) | (H5 & _)]).
  - repeat split; assumption.
  - exfalso; exact (H5 H).
Defined.


Lemma endpoint_db_unavailable_witness :
  db_writable ex_db_down = false /\
  snd (screen_resumes_endpoint ex_secure_filename ex_extract ex_ents ex_vocab ex_cos_sim
         ex_request ex_db_down) = ex_db_down /\
  forall candidates,
    fst (screen_resumes_endpoint ex_secure_filename ex_extract ex_ents ex_vocab ex_cos_sim
           ex_request ex_db_down) = ScreenSuccess candidates ->
    Forall (fun c => cand_id c = None /\ (cand_score c == 0)%Q) candidates.
Proof.
  assert (H : db_writable ex_db_down = false) by reflexivity.
  split; [exact H|].
  exact (endpoint_db_unavailable ex_secure_filename ex_extract ex_ents ex_vocab ex_cos_sim
           ex_request ex_db_down H).
Defined.

Lemma endpoint_results_reference_resumes_witness :
  results_reference_resumes ex_db1 /\
  results_reference_resumes
    (snd (screen_resumes_endpoint ex_secure_filename ex_extract ex_ents ex_vocab ex_cos_sim
            ex_request ex_db1)).
Proof.
  assert (H : results_reference_resumes ex_db1)
    by (unfold results_reference_resumes; vm_compute; repeat constructor).
  split; [exact H|].
  exact (endpoint_results_reference_resumes ex_secure_filename ex_extract ex_ents ex_vocab
           ex_cos_sim ex_request ex_db1 H).
Defined.
